(** * everything-claude-code: the [link] command's merge and link procedures

    A shallow embedding of [src/everything_claude_code/cli.py]: the JSON
    store ([_read_json], [_write_json]), the recursive dictionary merge
    ([_deep_merge]), the MCP merger with its filesystem-path reconciliation
    ([_merge_mcp_servers], [_handle_filesystem_path], [_set_filesystem_path])
    and the directory linker ([_link_directories]).

    Python objects are the inductive [value]; a [dict] is an association
    list in insertion order (a Python dict keeps insertion order and
    [json.dumps] prints in that order) whose keys are pairwise distinct.
    Exceptions are the [Raise] outcomes of the [result] type.  Files are a
    finite map from path strings to text; what is printed is a trace of
    events.

    The two functions of the standard library's json module that the
    store rests on are embedded with it: [json.dumps] with [indent=2] and
    [json.loads], for null, booleans, integers, strings, lists and dicts.
    Floating-point numbers and code points above 255 are outside the
    embedding. *)

From Stdlib Require Import Ascii String ZArith Lia DecimalPos DecimalZ.
From stdpp Require Import gmap strings list.

Local Open Scope string_scope.
Local Open Scope Z_scope.
Local Open Scope list_scope.

(** ** Outcomes of a call: a value or a raised exception *)

Inductive exn : Type :=
| TypeError
| AttributeError
| KeyError
| IndexError
| JSONDecodeError
| RecursionError
| FileNotFoundError
| OSError
| RuntimeError
| Unsupported (* input outside the modelled fragment of the json module *).

Inductive result (A : Type) : Type :=
| Ok (a : A)
| Raise (e : exn).

Arguments Ok {A} a.
Arguments Raise {A} e.

#[global] Instance result_ret : MRet result := fun A a => Ok a.

#[global] Instance result_bind : MBind result := fun A B k r =>
  match r with
  | Ok a => k a
  | Raise e => Raise e
  end.

(** ** Python objects that JSON documents are made of

    Numbers are the integers: floating-point leaves are left out of the
    embedding.  A [str] is a sequence of code points below 256. *)

Unset Elimination Schemes.
Inductive value : Type :=
| VNull
| VBool (b : bool)
| VInt (n : Z)
| VStr (s : string)
| VList (items : list value)
| VDict (items : list (string * value)).
Set Elimination Schemes.

Abbreviation dict := (list (string * value)).

(** [key in d] and [d[key]] / [d.get(key)] *)
Fixpoint dict_get (key : string) (d : dict) : option value :=
  match d with
  | [] => None
  | (k, v) :: d' => if String.eqb key k then Some v else dict_get key d'
  end.

(** [d[key] = v]: an existing key keeps its place, a new key goes last. *)
Fixpoint dict_set (key : string) (v : value) (d : dict) : dict :=
  match d with
  | [] => [(key, v)]
  | (k, x) :: d' =>
      if String.eqb key k then (k, v) :: d' else (k, x) :: dict_set key v d'
  end.

Definition keys (d : dict) : list string := map fst d.

(** The invariant of a Python dict: no key twice, at every depth. *)
Fixpoint wf_value (v : value) : Prop :=
  match v with
  | VList items =>
      (fix all (l : list value) : Prop :=
         match l with
         | [] => True
         | x :: l' => wf_value x /\ all l'
         end) items
  | VDict items =>
      NoDup (keys items) /\
      (fix all (l : dict) : Prop :=
         match l with
         | [] => True
         | (_, x) :: l' => wf_value x /\ all l'
         end) items
  | _ => True
  end.

(** [bool(v)] *)
Definition truthy (v : value) : bool :=
  match v with
  | VNull => false
  | VBool b => b
  | VInt n => negb (n =? 0)
  | VStr s => negb (String.eqb s EmptyString)
  | VList items => match items with [] => false | _ => true end
  | VDict items => match items with [] => false | _ => true end
  end.

(** [obj.get(key, default)]: only a dict has the method. *)
Definition py_get (obj : value) (key : string) (dflt : value) : result value :=
  match obj with
  | VDict d => Ok (default dflt (dict_get key d))
  | _ => Raise AttributeError
  end.

(** ** Deep merge

    [_deep_merge(base, overlay)], cli.py lines 31-39.  The loop over
    [overlay.items()] is the inner [loop]; [merged] starts as the copy
    [{**base}]. *)

Fixpoint merge_into (overlay : value) (base : dict) {struct overlay} : dict :=
  match overlay with
  | VDict items =>
      (fix loop (items : dict) (merged : dict) {struct items} : dict :=
         match items with
         | [] => merged
         | (key, val) :: rest =>
             loop rest
               (match dict_get key merged, val with
                | Some (VDict b), VDict _ =>
                    dict_set key (VDict (merge_into val b)) merged
                | _, _ => dict_set key val merged
                end)
         end) items base
  | _ => base
  end.

Definition deep_merge (base overlay : dict) : dict :=
  merge_into (VDict overlay) base.

(** One iteration of the loop body: [merged[key] = ...]. *)
Definition merge_step (merged : dict) (key : string) (val : value) : dict :=
  match dict_get key merged, val with
  | Some (VDict b), VDict o => dict_set key (VDict (deep_merge b o)) merged
  | _, _ => dict_set key val merged
  end.

(** The function as Python runs it on arbitrary objects: [{**base}] needs a
    mapping, [overlay.items()] needs a dict. *)
Definition _deep_merge (base overlay : value) : result value :=
  match base with
  | VDict b =>
      match overlay with
      | VDict o => Ok (VDict (deep_merge b o))
      | _ => Raise AttributeError
      end
  | _ => Raise TypeError
  end.

(** ** Text

    The content of a file and the argument of [json.loads] are text: a
    [string], read character by character as a [list ascii]. *)

Abbreviation text := (list ascii).

Definition dquote : ascii := "034"%char.
Definition backslash : ascii := "092"%char.
Definition newline : ascii := "010"%char.

Definition chars (s : string) : text := list_ascii_of_string s.
Definition str (t : text) : string := string_of_list_ascii t.

Definition code (c : ascii) : nat := nat_of_ascii c.

(** [str.isspace] on one character, for code points below 256. *)
Definition py_isspace (c : ascii) : bool :=
  let n := code c in
  ((9 <=? n) && (n <=? 13) || (28 <=? n) && (n <=? 32)
   || (n =? 133) || (n =? 160))%nat.

Fixpoint lstrip (t : text) : text :=
  match t with
  | [] => []
  | c :: t' => if py_isspace c then lstrip t' else t
  end.

(** [text.strip()] *)
Definition strip (t : text) : text := rev (lstrip (rev (lstrip t))).

Fixpoint is_prefix (p t : text) : bool :=
  match p, t with
  | [], _ => true
  | _ :: _, [] => false
  | a :: p', b :: t' => Ascii.eqb a b && is_prefix p' t'
  end.

(** [old in t] *)
Fixpoint contains (old t : text) : bool :=
  is_prefix old t || match t with [] => false | _ :: t' => contains old t' end.

(** [t.replace(old, new)] for a non-empty [old]: occurrences are replaced
    from the left and do not overlap; [skip] counts the characters of a
    replaced occurrence still to be dropped. *)
Fixpoint replace_from (old new : text) (skip : nat) (t : text) : text :=
  match t with
  | [] => []
  | c :: t' =>
      match skip with
      | S k => replace_from old new k t'
      | O =>
          if is_prefix old t
          then new ++ replace_from old new (length old - 1) t'
          else c :: replace_from old new O t'
      end
  end.

Definition replace (old new t : text) : text := replace_from old new O t.

(** ** The json module: [json.dumps(data, indent=2)]

    The standard library's encoder, for the objects of [value], with its
    default [ensure_ascii=True]: a character outside the printable ASCII
    range is written as an escape. *)

Section Encoder.
Local Open Scope char_scope.
Local Open Scope nat_scope.

Definition hex_digit (n : nat) : ascii :=
  match n with
  | 0 => "0" | 1 => "1" | 2 => "2" | 3 => "3" | 4 => "4" | 5 => "5"
  | 6 => "6" | 7 => "7" | 8 => "8" | 9 => "9" | 10 => "a" | 11 => "b"
  | 12 => "c" | 13 => "d" | 14 => "e" | _ => "f"
  end.

Definition encode_char (c : ascii) : text :=
  if Ascii.eqb c dquote then [backslash; dquote]
  else if Ascii.eqb c backslash then [backslash; backslash]
  else if Ascii.eqb c newline then [backslash; "n"]
  else if Ascii.eqb c "013" then [backslash; "r"]
  else if Ascii.eqb c "009" then [backslash; "t"]
  else if Ascii.eqb c "008" then [backslash; "b"]
  else if Ascii.eqb c "012" then [backslash; "f"]
  else if (32 <=? code c) && (code c <=? 126) then [c]
  else [backslash; "u"; "0"; "0";
        hex_digit (code c / 16); hex_digit (code c mod 16)].

Fixpoint encode_chars (s : string) : text :=
  match s with
  | EmptyString => []
  | String c s' => encode_char c ++ encode_chars s'
  end.

Definition quote (s : string) : text := dquote :: encode_chars s ++ [dquote].

Fixpoint uint_chars (u : Decimal.uint) : text :=
  match u with
  | Decimal.Nil => []
  | Decimal.D0 u' => "0" :: uint_chars u'
  | Decimal.D1 u' => "1" :: uint_chars u'
  | Decimal.D2 u' => "2" :: uint_chars u'
  | Decimal.D3 u' => "3" :: uint_chars u'
  | Decimal.D4 u' => "4" :: uint_chars u'
  | Decimal.D5 u' => "5" :: uint_chars u'
  | Decimal.D6 u' => "6" :: uint_chars u'
  | Decimal.D7 u' => "7" :: uint_chars u'
  | Decimal.D8 u' => "8" :: uint_chars u'
  | Decimal.D9 u' => "9" :: uint_chars u'
  end.

(** [int.__repr__] *)
Definition int_chars (n : Z) : text :=
  match Z.to_int n with
  | Decimal.Pos u => uint_chars u
  | Decimal.Neg u => "-" :: uint_chars u
  end.

(** A line break followed by the indentation of nesting level [lvl]. *)
Definition indent (lvl : nat) : text := newline :: repeat " " (2 * lvl).

Fixpoint encode (lvl : nat) (v : value) : text :=
  match v with
  | VNull => ["n"; "u"; "l"; "l"]
  | VBool true => ["t"; "r"; "u"; "e"]
  | VBool false => ["f"; "a"; "l"; "s"; "e"]
  | VInt n => int_chars n
  | VStr s => quote s
  | VList [] => ["["; "]"]
  | VList (x :: xs) =>
      "[" :: indent (S lvl) ++ encode (S lvl) x ++
      (fix more (l : list value) : text :=
         match l with
         | [] => []
         | y :: l' => "," :: indent (S lvl) ++ encode (S lvl) y ++ more l'
         end) xs
      ++ indent lvl ++ ["]"]
  | VDict [] => ["{"; "}"]
  | VDict ((k, x) :: xs) =>
      "{" :: indent (S lvl) ++ quote k ++ ":" :: " " :: encode (S lvl) x ++
      (fix more (l : dict) : text :=
         match l with
         | [] => []
         | (k', y) :: l' =>
             "," :: indent (S lvl) ++ quote k' ++ ":" :: " " ::
             encode (S lvl) y ++ more l'
         end) xs
      ++ indent lvl ++ ["}"]
  end.

End Encoder.

Definition json_dumps (v : value) : string := str (encode 0 v).

(** ** The json module: [json.loads]

    The standard library's decoder ([json.decoder], [json.scanner]) as the
    recursive descent it is.  [fuel] bounds the nesting depth and the number
    of items of one container; [json_loads] starts with more fuel than the
    text has characters, which is more than it uses ([json_loads_fuel]).
    A float literal, [NaN], [Infinity] and an escape of a code point above
    255 have no counterpart in [value]: they end in [Unsupported]. *)

Section Decoder.
Local Open Scope char_scope.
Local Open Scope nat_scope.

Definition is_ws (c : ascii) : bool :=
  Ascii.eqb c " " || Ascii.eqb c "009" || Ascii.eqb c newline || Ascii.eqb c "013".

Fixpoint skip_ws (t : text) : text :=
  match t with
  | [] => []
  | c :: t' => if is_ws c then skip_ws t' else t
  end.

(** The text after [c], when [t] starts with [c]. *)
Definition expect (c : ascii) (t : text) : option text :=
  match t with
  | x :: r => if Ascii.eqb x c then Some r else None
  | [] => None
  end.

Definition is_digit (c : ascii) : bool := (48 <=? code c) && (code c <=? 57).

Definition hex_val (c : ascii) : option nat :=
  let n := code c in
  if (48 <=? n) && (n <=? 57) then Some (n - 48)
  else if (97 <=? n) && (n <=? 102) then Some (n - 87)
  else if (65 <=? n) && (n <=? 70) then Some (n - 55)
  else None.

Definition hex4 (a b c d : ascii) : option nat :=
  match hex_val a, hex_val b, hex_val c, hex_val d with
  | Some x, Some y, Some z, Some w => Some (((x * 16 + y) * 16 + z) * 16 + w)
  | _, _, _, _ => None
  end.

Definition unescape (e : ascii) : option ascii :=
  if Ascii.eqb e dquote then Some dquote
  else if Ascii.eqb e backslash then Some backslash
  else if Ascii.eqb e "/" then Some "/"
  else if Ascii.eqb e "b" then Some "008"
  else if Ascii.eqb e "f" then Some "012"
  else if Ascii.eqb e "n" then Some newline
  else if Ascii.eqb e "r" then Some "013"
  else if Ascii.eqb e "t" then Some "009"
  else None.

(** [py_scanstring], after the opening quote: the string and the text
    after its closing quote. *)
Fixpoint scan_string (t : text) : result (string * text) :=
  match t with
  | [] => Raise JSONDecodeError
  | c :: t1 =>
      if Ascii.eqb c dquote then Ok (EmptyString, t1)
      else if Ascii.eqb c backslash then
        match t1 with
        | [] => Raise JSONDecodeError
        | e :: t2 =>
            if Ascii.eqb e "u" then
              match t2 with
              | h1 :: h2 :: h3 :: h4 :: t3 =>
                  match hex4 h1 h2 h3 h4 with
                  | Some n =>
                      if n <? 256
                      then '(s, r) ← scan_string t3;
                           Ok (String (ascii_of_nat n) s, r)
                      else Raise Unsupported
                  | None => Raise JSONDecodeError
                  end
              | _ => Raise JSONDecodeError
              end
            else
              match unescape e with
              | Some x => '(s, r) ← scan_string t2; Ok (String x s, r)
              | None => Raise JSONDecodeError
              end
        end
      else if code c <? 32 then Raise JSONDecodeError
      else '(s, r) ← scan_string t1; Ok (String c s, r)
  end.

Definition digit (c : ascii) : option (Decimal.uint -> Decimal.uint) :=
  if Ascii.eqb c "0" then Some Decimal.D0
  else if Ascii.eqb c "1" then Some Decimal.D1
  else if Ascii.eqb c "2" then Some Decimal.D2
  else if Ascii.eqb c "3" then Some Decimal.D3
  else if Ascii.eqb c "4" then Some Decimal.D4
  else if Ascii.eqb c "5" then Some Decimal.D5
  else if Ascii.eqb c "6" then Some Decimal.D6
  else if Ascii.eqb c "7" then Some Decimal.D7
  else if Ascii.eqb c "8" then Some Decimal.D8
  else if Ascii.eqb c "9" then Some Decimal.D9
  else None.

(** The longest run of digits at the start of [t], and the text after it. *)
Fixpoint scan_uint (t : text) : Decimal.uint * text :=
  match t with
  | [] => (Decimal.Nil, [])
  | c :: t' =>
      match digit c with
      | Some d => let '(u, r) := scan_uint t' in (d u, r)
      | None => (Decimal.Nil, t)
      end
  end.

(** Does a fraction [\.[0-9]+] or an exponent [[eE][-+]?[0-9]+] follow? *)
Definition is_float_tail (t : text) : bool :=
  match t with
  | [] => false
  | c :: t1 =>
      if Ascii.eqb c "." then
        match t1 with d :: _ => is_digit d | [] => false end
      else if Ascii.eqb c "e" || Ascii.eqb c "E" then
        match t1 with
        | [] => false
        | d :: t2 =>
            if is_digit d then true
            else if Ascii.eqb d "+" || Ascii.eqb d "-" then
              match t2 with d' :: _ => is_digit d' | [] => false end
            else false
        end
      else false
  end.

Definition finish_number (neg : bool) (u : Decimal.uint) (r : text)
  : result (value * text) :=
  if is_float_tail r then Raise Unsupported
  else Ok (VInt (Z.of_int (if neg then Decimal.Neg u else Decimal.Pos u)), r).

Definition not_a_number (t : text) : result (value * text) :=
  if is_prefix ["N"; "a"; "N"] t
     || is_prefix ["I"; "n"; "f"; "i"; "n"; "i"; "t"; "y"] t
     || is_prefix ["-"; "I"; "n"; "f"; "i"; "n"; "i"; "t"; "y"] t
  then Raise Unsupported
  else Raise JSONDecodeError.

(** The scanner's number pattern (an optional minus sign, then a single
    zero or a digit run that does not start with zero), then the constants
    that are tried after it. *)
Definition scan_number (t : text) : result (value * text) :=
  let '(neg, t1) :=
    match expect "-" t with
    | Some r => (true, r)
    | None => (false, t)
    end in
  match t1 with
  | [] => not_a_number t
  | c :: r =>
      if Ascii.eqb c "0" then finish_number neg (Decimal.D0 Decimal.Nil) r
      else if is_digit c then
        let '(u, r') := scan_uint t1 in finish_number neg u r'
      else not_a_number t
  end.

(** [dict(pairs)]: a repeated key keeps its first place and its last value. *)
Definition dict_of_pairs (pairs : dict) : dict :=
  fold_left (fun d kv => dict_set kv.1 kv.2 d) pairs [].

(** [JSONArray], from the first item on. *)
Fixpoint parse_elems (pv : text -> result (value * text)) (n : nat) (t : text)
  : result (list value * text) :=
  match n with
  | O => Raise RecursionError
  | S n' =>
      '(v, t1) ← pv t;
      let t2 := skip_ws t1 in
      match expect "]" t2 with
      | Some r => Ok ([v], r)
      | None =>
          match expect "," t2 with
          | Some t3 =>
              '(vs, r) ← parse_elems pv n' (skip_ws t3);
              Ok (v :: vs, r)
          | None => Raise JSONDecodeError
          end
      end
  end.

(** [JSONObject], from the first key on. *)
Fixpoint parse_members (pv : text -> result (value * text)) (n : nat) (t : text)
  : result (dict * text) :=
  match n with
  | O => Raise RecursionError
  | S n' =>
      match expect dquote t with
      | None => Raise JSONDecodeError
      | Some t0 =>
          '(k, t1) ← scan_string t0;
          match expect ":" (skip_ws t1) with
          | None => Raise JSONDecodeError
          | Some t2 =>
              '(v, t3) ← pv (skip_ws t2);
              let t4 := skip_ws t3 in
              match expect "}" t4 with
              | Some r => Ok ([(k, v)], r)
              | None =>
                  match expect "," t4 with
                  | Some t5 =>
                      '(ps, r) ← parse_members pv n' (skip_ws t5);
                      Ok ((k, v) :: ps, r)
                  | None => Raise JSONDecodeError
                  end
              end
          end
      end
  end.

(** [scan_once] *)
Fixpoint parse_value (fuel : nat) (t : text) : result (value * text) :=
  match fuel with
  | O => Raise RecursionError
  | S f =>
      match t with
      | [] => Raise JSONDecodeError
      | c :: t1 =>
          if Ascii.eqb c dquote then
            '(s, r) ← scan_string t1; Ok (VStr s, r)
          else if Ascii.eqb c "{" then
            let t2 := skip_ws t1 in
            match expect "}" t2 with
            | Some r => Ok (VDict [], r)
            | None =>
                '(ps, r) ← parse_members (parse_value f) f t2;
                Ok (VDict (dict_of_pairs ps), r)
            end
          else if Ascii.eqb c "[" then
            let t2 := skip_ws t1 in
            match expect "]" t2 with
            | Some r => Ok (VList [], r)
            | None =>
                '(vs, r) ← parse_elems (parse_value f) f t2;
                Ok (VList vs, r)
            end
          else if is_prefix ["n"; "u"; "l"; "l"] t then Ok (VNull, drop 4 t)
          else if is_prefix ["t"; "r"; "u"; "e"] t then Ok (VBool true, drop 4 t)
          else if is_prefix ["f"; "a"; "l"; "s"; "e"] t
          then Ok (VBool false, drop 5 t)
          else scan_number t
      end
  end.

(** [JSONDecoder.decode]: one value between optional blanks, nothing after. *)
Definition decode (t : text) : result value :=
  '(v, r) ← parse_value (S (length t)) (skip_ws t);
  match skip_ws r with
  | [] => Ok v
  | _ :: _ => Raise JSONDecodeError
  end.

End Decoder.

Definition json_loads (s : string) : result value := decode (chars s).

(** ** The environment and the file store

    What the command reads from outside: which path strings name existing
    directories ([Path(p).is_dir()]), how a path resolves
    ([Path(p).expanduser().resolve()], which raises RuntimeError when the
    home directory of a [~user] cannot be found or the path runs into a
    symlink loop), what [gh auth token] prints (no
    output at all when the executable is missing) and what the operator
    types at the prompt.  The JSON steps create and remove no directory, so
    [is_dir] does not change while they run.

    A [store] holds the regular files by path and the trace of what was
    printed.  Writing a file always succeeds: permissions and missing parent
    directories are outside the model. *)

Record env : Type := {
  is_dir : string -> bool;
  resolve : string -> result string;
  gh_stdout : option string;
  prompt_answer : string
}.

Inductive event : Type :=
| Echo (msg : string)
| Prompt (msg : string).

Record store : Type := {
  files : gmap string string;
  out : list event
}.

Definition echo (w : store) (msg : string) : store :=
  {| files := files w; out := out w ++ [Echo msg] |}.

Definition is_file (w : store) (path : string) : bool :=
  match files w !! path with Some _ => true | None => false end.

Definition write_text (w : store) (path : string) (t : string) : store :=
  {| files := <[path := t]> (files w); out := out w |}.

(** [p / name] *)
Definition joinpath (p name : string) : string := p +:+ "/" +:+ name.

Definition nl : string := String newline EmptyString.

Definition GH_TOKEN_PLACEHOLDER : string := "YOUR_GITHUB_PAT_HERE".
Definition FS_PATH_PLACEHOLDER : string := "YOUR_FILESYSTEM_PATH_HERE".

(** ** JSON store, cli.py lines 42-54 *)

Definition is_blank (t : string) : bool :=
  match strip (chars t) with [] => true | _ :: _ => false end.

Definition _read_json (w : store) (path : string) : result value :=
  match files w !! path with
  | None => Ok (VDict [])
  | Some t => if is_blank t then Ok (VDict []) else json_loads t
  end.

Definition _write_json (w : store) (path : string) (data : value) : store :=
  write_text w path (json_dumps data +:+ nl).

(** ** Backup, cli.py lines 57-64: [path.with_suffix(path.suffix + ".bak")]
    is the path with [.bak] appended. *)

Definition _backup (w : store) (path : string) : store * option string :=
  match files w !! path with
  | None => (w, None)
  | Some t =>
      let bak := path +:+ ".bak" in
      (echo (write_text w bak t) ("  Backed up: " +:+ path +:+ " -> " +:+ bak),
       Some bak)
  end.

(** ** Credential auto-fill, cli.py lines 67-79 and 177-190 *)

Definition _gh_auth_token (E : env) : option string :=
  match gh_stdout E with
  | None => None
  | Some o =>
      match strip (chars o) with
      | [] => None
      | token => Some (str token)
      end
  end.

Definition _auto_fill_gh_token (E : env) (w : store) (claude_json_path : string)
  : result store :=
  match files w !! claude_json_path with
  | None => Raise FileNotFoundError
  | Some raw_text =>
      if negb (contains (chars GH_TOKEN_PLACEHOLDER) (chars raw_text)) then Ok w
      else
        match _gh_auth_token E with
        | Some token =>
            let updated :=
              str (replace (chars GH_TOKEN_PLACEHOLDER) (chars token)
                     (chars raw_text)) in
            Ok (echo (write_text w claude_json_path updated)
                  "  Auto-filled GITHUB_PERSONAL_ACCESS_TOKEN from gh CLI")
        | None =>
            Ok (echo w "  TIP: Run 'gh auth login' to auto-fill GitHub token")
        end
  end.

(** ** [_set_filesystem_path], cli.py lines 265-275 *)

(** [obj[-1]] *)
Definition py_getitem_last (obj : value) : result value :=
  match obj with
  | VList items =>
      match last items with Some x => Ok x | None => Raise IndexError end
  | VStr s =>
      match last (chars s) with
      | Some c => Ok (VStr (String c EmptyString))
      | None => Raise IndexError
      end
  | VDict _ => Raise KeyError
  | _ => Raise TypeError
  end.

(** [obj[-1] = v].  On a dict the statement adds the integer key [-1]; the
    object is only printed afterwards, and [json.dumps] prints that key last
    and as the string [-1], which is how it stands here. *)
Definition py_setitem_last (obj v : value) : result value :=
  match obj with
  | VList items =>
      match items with
      | [] => Raise IndexError
      | _ :: _ => Ok (VList (removelast items ++ [v]))
      end
  | VDict d => Ok (VDict (d ++ [("-1", v)]))
  | _ => Raise TypeError
  end.

(** [obj.append(v)] *)
Definition py_append (obj v : value) : result value :=
  match obj with
  | VList items => Ok (VList (items ++ [v]))
  | _ => Raise AttributeError
  end.

(** [doc.get("mcpServers", {}).get("filesystem", {}).get("args", [])] *)
Definition fs_args (doc : value) : result value :=
  servers ← py_get doc "mcpServers" (VDict []);
  fs_config ← py_get servers "filesystem" (VDict []);
  py_get fs_config "args" (VList []).

(** [data.setdefault("mcpServers", {}).setdefault("filesystem", {})["args"] = args] *)
Definition set_fs_args (data args : value) : result value :=
  match data with
  | VDict d =>
      match default (VDict []) (dict_get "mcpServers" d) with
      | VDict servers =>
          match default (VDict []) (dict_get "filesystem" servers) with
          | VDict fs_config =>
              Ok (VDict
                    (dict_set "mcpServers"
                       (VDict
                          (dict_set "filesystem"
                             (VDict (dict_set "args" args fs_config)) servers))
                       d))
          | _ => Raise TypeError
          end
      | _ => Raise AttributeError
      end
  | _ => Raise AttributeError
  end.

(** The document [_set_filesystem_path] writes, from the one it read. *)
Definition with_fs_path (data : value) (path_value : string) : result value :=
  args ← fs_args data;
  args' ← (if truthy args
           then py_setitem_last args (VStr path_value)
           else py_append args (VStr path_value));
  set_fs_args data args'.

Definition _set_filesystem_path (w : store) (claude_json_path path_value : string)
  : result store :=
  data ← _read_json w claude_json_path;
  data' ← with_fs_path data path_value;
  Ok (_write_json w claude_json_path data').

(** ** [_handle_filesystem_path], cli.py lines 193-262 *)

(** Lines 202-209: the last [args] element of the backup; [VNull] is
    Python's [None]. *)
Definition existing_fs_path (w : store) (bak_path : option string) : result value :=
  match bak_path with
  | None => Ok VNull
  | Some bak =>
      if is_file w bak then
        bak_data ← _read_json w bak;
        args ← fs_args bak_data;
        if truthy args then py_getitem_last args else Ok VNull
      else Ok VNull
  end.

Definition is_placeholder (v : value) : bool :=
  match v with
  | VStr s => String.eqb s FS_PATH_PLACEHOLDER
  | _ => false
  end.

(** [Path(v).is_dir()]: [Path] takes a [str]. *)
Definition path_is_dir (E : env) (v : value) : result bool :=
  match v with
  | VStr p => Ok (is_dir E p)
  | _ => Raise TypeError
  end.

(** [str(v)] inside an f-string, for the values that reach it. *)
Definition show (v : value) : string :=
  match v with
  | VStr s => s
  | _ => EmptyString
  end.

Definition opt_truthy (s : option string) : bool :=
  match s with
  | Some p => negb (String.eqb p EmptyString)
  | None => false
  end.

(** Lines 212-219 and 254-260: a path given by the flag or at the prompt. *)
Definition use_given_path (E : env) (w : store) (claude_json_path given : string)
  : result store :=
  resolved ← resolve E given;
  if is_dir E resolved then
    w' ← _set_filesystem_path w claude_json_path resolved;
    Ok (echo w' ("  Set filesystem path to: " +:+ resolved))
  else
    Ok (echo w ("  Warning: Directory not found: " +:+ resolved +:+ " (skipping)")).

Definition _handle_filesystem_path (E : env) (w : store)
    (claude_json_path : string) (bak_path : option string)
    (fs_path : option string) (no_prompt : bool) : result store :=
  existing ← existing_fs_path w bak_path;
  if opt_truthy fs_path then
    use_given_path E w claude_json_path (default EmptyString fs_path)
  else
    restore ← (if truthy existing && negb (is_placeholder existing)
               then path_is_dir E existing else Ok false);
    if restore : bool then
      w' ← _set_filesystem_path w claude_json_path (show existing);
      Ok (echo w' ("  Filesystem MCP already configured: " +:+ show existing))
    else
      stale ← (if truthy existing && negb (is_placeholder existing)
               then b ← path_is_dir E existing; Ok (negb b) else Ok false);
      let w1 :=
        if stale : bool
        then echo w ("  Warning: Previously configured path no longer exists: "
                     +:+ show existing)
        else w in
      if no_prompt then
        Ok (echo w1 "  Skipped filesystem path prompt (--no-prompt)")
      else
        let w2 := echo w1 (nl +:+ "=== Filesystem MCP Setup ===") in
        let w3 := {| files := files w2;
                     out := out w2 ++
                       [Prompt "Enter the directory path for filesystem MCP (or press Enter to skip)"] |} in
        let user_path := prompt_answer E in
        if negb (String.eqb user_path EmptyString) then
          use_given_path E w3 claude_json_path user_path
        else
          Ok (echo w3 "  Skipped — you can manually set it later in ~/.claude.json").

(** ** [_merge_hooks], cli.py lines 106-128

    The hooks document is parsed with [json.loads] directly, after the
    textual substitution of the plugin-root placeholder by [str(src)]. *)

Definition PLUGIN_ROOT_PLACEHOLDER : string := "${CLAUDE_PLUGIN_ROOT}".

Definition _merge_hooks (w : store) (src dest : string) : result store :=
  let hooks_src := joinpath (joinpath src "hooks") "hooks.json" in
  match files w !! hooks_src with
  | None => Ok (echo w "  Skipping hooks merge — hooks/hooks.json not found")
  | Some hooks_text =>
      let w0 := echo w (nl +:+ "=== Merging hooks into settings.json ===") in
      let settings_path := joinpath dest "settings.json" in
      let hooks_text' :=
        str (replace (chars PLUGIN_ROOT_PLACEHOLDER) (chars src) (chars hooks_text)) in
      hooks_data ← json_loads hooks_text';
      let '(w1, _) := _backup w0 settings_path in
      existing ← _read_json w1 settings_path;
      merged ← _deep_merge existing hooks_data;
      let w2 := _write_json w1 settings_path merged in
      Ok (echo w2 ("  Merged hooks into: " +:+ settings_path))
  end.

(** ** [_merge_mcp_servers], cli.py lines 131-174 *)

(** Lines 152-155: the document that is written, from the existing
    client-config document and the source MCP document. *)
Definition merged_document (existing mcp_data : value) : result value :=
  existing_servers ← py_get existing "mcpServers" (VDict []);
  new_servers ← py_get mcp_data "mcpServers" (VDict []);
  merged_servers ← _deep_merge existing_servers new_servers;
  match existing with
  | VDict e => Ok (VDict (dict_set "mcpServers" merged_servers e))
  | _ => Raise TypeError
  end.

(** Lines 144-163: read both documents, back up, merge and write. *)
Definition merge_and_write (w : store) (mcp_src claude_json_path : string)
  : result (store * option string) :=
  let w0 := echo w (nl +:+ "=== Merging MCP servers into ~/.claude.json ===") in
  mcp_data ← _read_json w0 mcp_src;
  let '(w1, bak_path) := _backup w0 claude_json_path in
  existing ← _read_json w1 claude_json_path;
  merged ← merged_document existing mcp_data;
  let w2 := _write_json w1 claude_json_path merged in
  let w3 := echo w2 ("  Merged MCP servers into: " +:+ claude_json_path) in
  Ok (echo w3 (nl +:+ "  NOTE: Replace YOUR_*_HERE placeholders in "
               +:+ claude_json_path +:+ " with actual values"),
      bak_path).

Definition _merge_mcp_servers (E : env) (w : store) (src claude_json_path : string)
    (fs_path : option string) (no_prompt : bool) : result store :=
  let mcp_src := joinpath (joinpath src "mcp-configs") "mcp-servers.json" in
  if negb (is_file w mcp_src) then
    Ok (echo w "  Skipping MCP merge — mcp-configs/mcp-servers.json not found")
  else
    '(w1, bak_path) ← merge_and_write w mcp_src claude_json_path;
    w2 ← _auto_fill_gh_token E w1 claude_json_path;
    _handle_filesystem_path E w2 claude_json_path bak_path fs_path no_prompt.

(** ** Directory linker, cli.py lines 82-103

    The destination directory is the finite map of its entries by name.
    The source tree is read-only and apart from the destination, so whether
    [src / name] is a directory is a question to the environment.  The
    destination directory itself exists ([link] creates it first). *)

Unset Elimination Schemes.
Inductive node : Type :=
| NFile (content : string)
| NLink (target : string)
| NDir (children : list (string * node)).
Set Elimination Schemes.

Record dest_state : Type := {
  entries : gmap string node;
  printed : list event
}.

Definition say (w : dest_state) (msg : string) : dest_state :=
  {| entries := entries w; printed := printed w ++ [Echo msg] |}.

Definition LINK_DIRS : list string :=
  ["agents"; "commands"; "contexts"; "plugins"; "rules"; "skills"].

Section Paths.
Local Open Scope char_scope.
Local Open Scope nat_scope.

(** [name.rfind(".")]: the index at or after [i] of the last dot. *)
Fixpoint rfind_dot (t : text) (i : nat) (found : option nat) : option nat :=
  match t with
  | [] => found
  | c :: t' => rfind_dot t' (S i) (if Ascii.eqb c "." then Some i else found)
  end.

(** [PurePath.suffix] of a final path component. *)
Definition suffix (name : string) : string :=
  match rfind_dot (chars name) 0 None with
  | Some i =>
      if (0 <? i) && (i <? String.length name - 1)
      then str (drop i (chars name))
      else EmptyString
  | None => EmptyString
  end.

(** [PurePath.with_suffix] on a final path component that is not empty
    (Python raises [ValueError] on an empty one). *)
Definition with_suffix (name sfx : string) : string :=
  let old := suffix name in
  str (take (String.length name - String.length old) (chars name)) +:+ sfx.

End Paths.

(** [shutil.rmtree]: it removes a real directory and refuses a symlink or a
    regular file. *)
Definition rmtree (name : string) (w : dest_state) : result dest_state :=
  match entries w !! name with
  | Some (NDir _) =>
      Ok {| entries := delete name (entries w); printed := printed w |}
  | _ => Raise OSError
  end.

(** [Path.rename]: onto nothing or onto an empty directory. *)
Definition rename (name target : string) (w : dest_state) : result dest_state :=
  match entries w !! name with
  | None => Raise OSError
  | Some n =>
      if String.eqb name target then Ok w
      else
        match entries w !! target with
        | None | Some (NDir []) =>
            Ok {| entries := <[target := n]> (delete name (entries w));
                  printed := printed w |}
        | Some _ => Raise OSError
        end
  end.

(** [Path.symlink_to]: the path must be free. *)
Definition symlink_to (name target : string) (w : dest_state) : result dest_state :=
  match entries w !! name with
  | None =>
      Ok {| entries := <[name := NLink target]> (entries w);
            printed := printed w |}
  | Some _ => Raise OSError
  end.

(** The body of the loop, for one [name]. *)
Definition link_one (E : env) (src dest name : string) (w : dest_state)
  : result dest_state :=
  let src_path := joinpath src name in
  let dest_path := joinpath dest name in
  if negb (is_dir E src_path) then
    Ok (say w ("  Warning: Source not found, skipping: " +:+ src_path))
  else
    w2 ← match entries w !! name with
          | Some (NLink _) =>
              let w1 := say w ("  Removing existing symlink: " +:+ dest_path) in
              Ok {| entries := delete name (entries w1); printed := printed w1 |}
          | Some (NDir _) =>
              let bak := with_suffix name ".bak" in
              let w1 := say w ("  Backing up existing directory: " +:+ dest_path
                               +:+ " -> " +:+ joinpath dest bak) in
              (* [if bak.exists(): shutil.rmtree(bak)]; on a symlink that
                 dangles [exists] is false and the rename onto it fails,
                 on any other symlink [rmtree] fails. *)
              w1' ← match entries w1 !! bak with
                    | None => Ok w1
                    | Some _ => rmtree bak w1
                    end;
              rename name bak w1'
          | _ => Ok w
          end;
    symlink_to name src_path
      (say w2 ("  Linking: " +:+ src_path +:+ " -> " +:+ dest_path)).

Fixpoint link_all (E : env) (src dest : string) (names : list string)
    (w : dest_state) : result dest_state :=
  match names with
  | [] => Ok w
  | name :: rest => w' ← link_one E src dest name w; link_all E src dest rest w'
  end.

Definition _link_directories (E : env) (src dest : string) (w : dest_state)
  : result dest_state :=
  link_all E src dest LINK_DIRS (say w "=== Linking directories ===").

(** ** Notions of the statements and of their proofs *)

Section Measures.
Local Open Scope char_scope.
Local Open Scope nat_scope.

(** What may follow the digits of an integer. *)
Definition no_digit_ahead (t : text) : Prop :=
  match t with
  | [] => True
  | c :: _ => digit c = None
  end.

(** The text starts like a number: with a digit or a minus sign. *)
Definition starts_number (t : text) : bool :=
  match t with
  | c :: _ => is_digit c || Ascii.eqb c "-"
  | [] => false
  end.

(** The text after an integer: no digit, no fraction, no exponent. *)
Definition ends_number (t : text) : Prop :=
  no_digit_ahead t /\ is_float_tail t = false.

(** The items of a list after the first, as [encode] prints them. *)
Fixpoint encode_items (lvl : nat) (xs : list value) : text :=
  match xs with
  | [] => []
  | y :: l => "," :: indent (S lvl) ++ encode (S lvl) y ++ encode_items lvl l
  end.

(** The members of a dict after the first, as [encode] prints them. *)
Fixpoint encode_pairs (lvl : nat) (xs : dict) : text :=
  match xs with
  | [] => []
  | (k, y) :: l =>
      "," :: indent (S lvl) ++ quote k ++ ":" :: " " ::
      encode (S lvl) y ++ encode_pairs lvl l
  end.

(** The number of nodes of an object: the fuel that parsing it takes. *)
Fixpoint size (v : value) : nat :=
  match v with
  | VList items =>
      S ((fix sum (l : list value) : nat :=
            match l with
            | [] => 0
            | x :: l' => size x + sum l'
            end) items)
  | VDict items =>
      S ((fix sum (l : dict) : nat :=
            match l with
            | [] => 0
            | (_, x) :: l' => size x + sum l'
            end) items)
  | _ => 1
  end.

Definition sizes (l : list value) : nat := foldr (fun x n => size x + n) 0 l.

Definition sizes2 (l : dict) : nat := foldr (fun kv n => size kv.2 + n) 0 l.

(** A character that can start a printed object: not blank, not a closing
    bracket. *)
Definition opener (c : ascii) : bool :=
  negb (is_ws c) && negb (py_isspace c)
  && negb (Ascii.eqb c "]") && negb (Ascii.eqb c "}").

(** On a text shorter than [f] the parser [pv] does not run out of fuel and
    leaves less text than it was given. *)
Definition shrinks {A} (pv : text -> result (A * text)) (f : nat) : Prop :=
  forall t, length t < f ->
    pv t <> Raise RecursionError /\
    forall v r, pv t = Ok (v, r) -> length r < length t.

End Measures.

(** [isinstance(v, dict)] *)
Definition is_mapping (v : value) : bool :=
  match v with
  | VDict _ => true
  | _ => false
  end.

(** [doc["mcpServers"]["filesystem"]["args"]], when the three keys are there. *)
Definition lookup_fs_args (doc : value) : option value :=
  match doc with
  | VDict d =>
      match dict_get "mcpServers" d with
      | Some (VDict servers) =>
          match dict_get "filesystem" servers with
          | Some (VDict fs_config) => dict_get "args" fs_config
          | _ => None
          end
      | _ => None
      end
  | _ => None
  end.

(** The list [args] after the step: the last element replaced, or the value
    alone when there was no element. *)
Definition new_args (l : list value) (path_value : string) : list value :=
  match l with
  | [] => [VStr path_value]
  | _ :: _ => removelast l ++ [VStr path_value]
  end.

(** [x or {}], for the value under a key that may be missing. *)
Definition or_empty (x : option value) : value :=
  match x with
  | Some v => if truthy v then v else VDict []
  | None => VDict []
  end.

(** The value under a key of a document in the client-config format: the
    key is missing or holds a mapping. *)
Definition absent_or_mapping (x : option value) : Prop :=
  match x with
  | Some v => is_mapping v = true
  | None => True
  end.

(** The last [args] element of the client-config text [t], as lines 204-209
    take it from the backup. *)
Definition prior_fs_path (t : string) : result value :=
  bak_data ← (if is_blank t then Ok (VDict []) else json_loads t);
  args ← fs_args bak_data;
  if truthy args then py_getitem_last args else Ok VNull.

(** [dest_path.with_suffix(".bak")], as a name in the destination. *)
Definition bak_name (name : string) : string := with_suffix name ".bak".

(** What one pass of the loop body leaves for [name]. *)
Definition linked (E : env) (src name : string) (w w' : dest_state) : Prop :=
  if is_dir E (joinpath src name) then
    entries w' !! name = Some (NLink (joinpath src name)) /\
    match entries w !! name with
    | Some (NDir c) => entries w' !! bak_name name = Some (NDir c)
    | Some (NFile _) => False
    | Some (NLink _) | None => entries w' !! bak_name name = entries w !! bak_name name
    end
  else
    entries w' !! name = entries w !! name /\
    entries w' !! bak_name name = entries w !! bak_name name.


(** The names and their backup names are pairwise different. *)
Definition apart (names : list string) : Prop :=
  NoDup (names ++ map bak_name names).

(** The first character of [new] is no character of [old]. *)
Definition head_differs (new old : text) : bool :=
  match new with
  | [] => false
  | b :: _ => negb (existsb (Ascii.eqb b) old)
  end.

(** No end of [s] other than the empty one is a start of [old]. *)
Fixpoint no_border (s old : text) : bool :=
  match s with
  | [] => true
  | _ :: s' => negb (is_prefix s old) && no_border s' old
  end.

(** A token that cannot make up the placeholder again once it is put in
    its place: it starts with a character the placeholder does not have, it
    does not end in a start of the placeholder and does not hold it. *)
Definition token_fits (token : string) : bool :=
  head_differs (chars token) (chars GH_TOKEN_PLACEHOLDER)
  && no_border (chars token) (chars GH_TOKEN_PLACEHOLDER)
  && negb (contains (chars GH_TOKEN_PLACEHOLDER) (chars token)).

(** The source MCP document of the regression suite. *)
Definition demo_mcp : dict :=
  [("mcpServers",
    VDict [("github",
            VDict [("command", VStr "npx");
                   ("env", VDict [("GITHUB_PERSONAL_ACCESS_TOKEN",
                                   VStr "YOUR_GITHUB_PAT_HERE")])]);
           ("filesystem",
            VDict [("command", VStr "npx");
                   ("args", VList [VStr "-y"; VStr "@mcp/server-filesystem";
                                   VStr "YOUR_FILESYSTEM_PATH_HERE"])])])].

(** An existing client-config document with a key and a server of its own. *)
Definition demo_existing : dict :=
  [("topLevel", VStr "kept");
   ("mcpServers", VDict [("custom", VDict [("command", VStr "my-server")])])].

(** The store before a run: the source MCP document and the client-config
    document [existing]. *)
Definition demo_store (existing : dict) : store :=
  _write_json
    (_write_json {| files := ∅; out := [] |}
       "repo/mcp-configs/mcp-servers.json" (VDict demo_mcp))
    "claude.json" (VDict existing).

(** Two directories exist and the credential helper prints a token. *)
Definition demo_env : env :=
  {| is_dir := fun p => String.eqb p "/work/code" || String.eqb p "/old/code";
     resolve := fun p => Ok p;
     gh_stdout := Some ("ghp_test123" +:+ nl);
     prompt_answer := EmptyString |}.

(** A client-config document whose filesystem server ends in [path]. *)
Definition demo_configured (path : string) : dict :=
  [("mcpServers",
    VDict [("filesystem",
            VDict [("command", VStr "npx");
                   ("args", VList [VStr "-y"; VStr "@mcp/server-filesystem";
                                   VStr path])])])].

(** The environment of a run in an existing current directory, which is
    what the empty path names ([Path] of the empty string is [Path(".")]);
    no other directory is needed. *)
Definition cwd_env : env :=
  {| is_dir := fun p => String.eqb p EmptyString;
     resolve := fun p => Ok p;
     gh_stdout := None;
     prompt_answer := EmptyString |}.

(** A destination with a real directory, an older backup of it and a
    symlink that points elsewhere. *)
Definition demo_dest : dest_state :=
  {| entries :=
       <["agents" := NDir [("existing.md", NFile "keep me")]]>
       (<["agents.bak" := NDir [("stale.md", NFile "older")]]>
       (<["commands" := NLink "/elsewhere/commands"]> ∅));
     printed := [] |}.

(** Every source subdirectory exists but [plugins]. *)
Definition demo_link_env : env :=
  {| is_dir := fun p => negb (String.eqb p "repo/plugins");
     resolve := fun p => Ok p;
     gh_stdout := None;
     prompt_answer := EmptyString |}.

(** A hooks document of the source tree and a settings document with a key
    of its own. *)
Definition demo_hooks : dict :=
  [("hooks",
    VDict [("PreToolUse",
            VList [VDict [("matcher", VStr "Bash");
                          ("command", VStr "${CLAUDE_PLUGIN_ROOT}/scripts/check.sh")]])])].

Definition demo_settings : dict :=
  [("customKey", VStr "preserved"); ("hooks", VDict [("Stop", VList [])])].

Definition demo_hooks_store : store :=
  _write_json
    (_write_json {| files := ∅; out := [] |}
       "repo/hooks/hooks.json" (VDict demo_hooks))
    "dest/settings.json" (VDict demo_settings).

(** Two outcomes that leave the same files, or raise the same exception. *)
Definition same_files (r1 r2 : result store) : Prop :=
  match r1, r2 with
  | Ok a, Ok b => files a = files b
  | Raise e1, Raise e2 => e1 = e2
  | _, _ => False
  end.

(** A prior path that cannot be restored: none, the empty one, the
    placeholder, or one that names no directory. *)
Definition unusable (E : env) (existing : value) : Prop :=
  match existing with
  | VNull => True
  | VStr p => p = EmptyString \/ p = FS_PATH_PLACEHOLDER \/ is_dir E p = false
  | _ => False
  end.

(** The servers of a client-config document and the configuration of its
    filesystem server, as [.get(key, {})] reads them. *)
Definition servers_of (doc : value) : dict :=
  match doc with
  | VDict d =>
      match default (VDict []) (dict_get "mcpServers" d) with
      | VDict servers => servers
      | _ => []
      end
  | _ => []
  end.

Definition fs_config_of (doc : value) : dict :=
  match default (VDict []) (dict_get "filesystem" (servers_of doc)) with
  | VDict fs_config => fs_config
  | _ => []
  end.

(** A JSON value that is neither an array nor an object. *)
Definition is_scalar (v : value) : bool :=
  match v with
  | VList _ | VDict _ => false
  | _ => true
  end.


(** [PurePosixPath.is_absolute] *)
Definition is_absolute (p : string) : bool :=
  match p with
  | String c _ => Ascii.eqb c "/"
  | EmptyString => false
  end.

(** Where a symlink that lies in the directory [dir] and holds the text
    [target] leads: the system reads a relative text from the directory
    that holds the link. *)
Definition leads_to (dir target : string) : string :=
  if is_absolute target then target else joinpath dir target.

(** A source tree given by the relative path [repo]: its six
    subdirectories exist and nothing else does. *)
Definition relative_env : env :=
  {| is_dir := fun p =>
       existsb (fun name => String.eqb p (joinpath "repo" name)) LINK_DIRS;
     resolve := fun p => Ok p;
     gh_stdout := None;
     prompt_answer := EmptyString |}.



(** A client-config document whose [mcpServers] is [null]. *)
Definition null_servers : dict :=
  [("topLevel", VStr "kept"); ("mcpServers", VNull)].


(** * Properties *)

(** ** Dictionaries *)

Lemma dict_get_set_eq key v d : dict_get key (dict_set key v d) = Some v.
Proof.
  induction d as [|[k x] d IH]; simpl.
  - by rewrite String.eqb_refl.
  - destruct (String.eqb_spec key k) as [->|Hne]; simpl.
    + by rewrite String.eqb_refl.
    + by destruct (String.eqb_spec key k).
Qed.

Lemma dict_get_set_ne key key' v d :
  key <> key' -> dict_get key' (dict_set key v d) = dict_get key' d.
Proof.
  intros Hne. induction d as [|[k x] d IH]; simpl.
  - by destruct (String.eqb_spec key' key) as [->|].
  - destruct (String.eqb_spec key k) as [->|Hk]; simpl.
    + by destruct (String.eqb_spec key' k) as [->|].
    + by rewrite IH.
Qed.

Lemma dict_get_None key d : key ∉ keys d -> dict_get key d = None.
Proof.
  induction d as [|[k x] d IH]; simpl; [done|].
  intros Hnin. apply not_elem_of_cons in Hnin as [Hne Hnin].
  destruct (String.eqb_spec key k); [done|]. by apply IH.
Qed.

Lemma dict_get_Some_keys key d v : dict_get key d = Some v -> key ∈ keys d.
Proof.
  induction d as [|[k x] d IH]; simpl; [done|].
  destruct (String.eqb_spec key k) as [->|]; intros H.
  - apply elem_of_cons. by left.
  - apply elem_of_cons. right. by apply IH.
Qed.

Lemma dict_set_absent key v d :
  dict_get key d = None -> dict_set key v d = d ++ [(key, v)].
Proof.
  induction d as [|[k x] d IH]; simpl; [done|].
  destruct (String.eqb_spec key k); [done|]. intros H. by rewrite IH.
Qed.

Lemma keys_dict_set_present key v d :
  key ∈ keys d -> keys (dict_set key v d) = keys d.
Proof.
  induction d as [|[k x] d IH]; simpl.
  - intros H. by apply elem_of_nil in H.
  - destruct (String.eqb_spec key k) as [->|Hne]; [done|].
    intros [?|H]%elem_of_cons; [done|]. simpl. f_equal. by apply IH.
Qed.

Lemma keys_dict_set key v d :
  keys (dict_set key v d) =
    match dict_get key d with Some _ => keys d | None => keys d ++ [key] end.
Proof.
  destruct (dict_get key d) eqn:Hg.
  - apply keys_dict_set_present. by eapply dict_get_Some_keys.
  - rewrite dict_set_absent by done. unfold keys. by rewrite map_app.
Qed.

Lemma dict_get_is_Some key d : key ∈ keys d -> is_Some (dict_get key d).
Proof.
  induction d as [|[k x] d IH]; simpl.
  - intros H. by apply elem_of_nil in H.
  - destruct (String.eqb_spec key k); [by eexists|].
    intros [?|H]%elem_of_cons; [done|]. by apply IH.
Qed.

Lemma NoDup_keys_dict_set key v d : NoDup (keys d) -> NoDup (keys (dict_set key v d)).
Proof.
  intros Hnd. rewrite keys_dict_set. destruct (dict_get key d) eqn:Hg; [done|].
  apply NoDup_app. split_and!; [done| |apply NoDup_singleton].
  intros x Hx ->%list_elem_of_singleton.
  apply dict_get_is_Some in Hx as [? Hx]. congruence.
Qed.

(** ** Deep merge *)

Lemma deep_merge_nil base : deep_merge base [] = base.
Proof. reflexivity. Qed.

Lemma deep_merge_cons base key val rest :
  deep_merge base ((key, val) :: rest) = deep_merge (merge_step base key val) rest.
Proof.
  unfold deep_merge, merge_step. simpl.
  destruct (dict_get key base) as [[]|]; destruct val; reflexivity.
Qed.

Lemma merge_step_get_eq base key val :
  dict_get key (merge_step base key val) =
    match dict_get key base, val with
    | Some (VDict b), VDict o => Some (VDict (deep_merge b o))
    | _, _ => Some val
    end.
Proof.
  unfold merge_step.
  destruct (dict_get key base) as [[]|]; destruct val; apply dict_get_set_eq.
Qed.

Lemma merge_step_get_ne base key key' val :
  key <> key' -> dict_get key' (merge_step base key val) = dict_get key' base.
Proof.
  intros Hne. unfold merge_step.
  destruct (dict_get key base) as [[]|]; destruct val;
    by apply dict_get_set_ne.
Qed.

Lemma deep_merge_get overlay : forall base key,
  NoDup (keys overlay) ->
  dict_get key (deep_merge base overlay) =
    match dict_get key overlay with
    | Some ov =>
        match dict_get key base, ov with
        | Some (VDict b), VDict o => Some (VDict (deep_merge b o))
        | _, _ => Some ov
        end
    | None => dict_get key base
    end.
Proof.
  induction overlay as [|[k v] rest IH]; intros base key Hnd; [done|].
  simpl in Hnd. apply NoDup_cons in Hnd as [Hk Hnd].
  rewrite deep_merge_cons, IH by done. simpl.
  destruct (String.eqb_spec key k) as [->|Hne].
  - rewrite (dict_get_None k rest) by done. apply merge_step_get_eq.
  - rewrite merge_step_get_ne by done. reflexivity.
Qed.

Lemma deep_merge_fresh overlay : forall base,
  NoDup (keys overlay) ->
  (forall key, key ∈ keys overlay -> key ∉ keys base) ->
  deep_merge base overlay = base ++ overlay.
Proof.
  induction overlay as [|[k v] rest IH]; intros base Hnd Hfresh.
  - by rewrite deep_merge_nil, app_nil_r.
  - simpl in Hnd. apply NoDup_cons in Hnd as [Hk Hnd].
    assert (Hg : dict_get k base = None).
    { apply dict_get_None, Hfresh. simpl. apply elem_of_cons. by left. }
    rewrite deep_merge_cons. unfold merge_step. rewrite Hg.
    rewrite dict_set_absent by done. rewrite IH; [by rewrite <- app_assoc|done|].
    intros key Hin. unfold keys. rewrite map_app. simpl.
    intros [Hb| ->%list_elem_of_singleton]%elem_of_app; [|done].
    eapply Hfresh; [|exact Hb]. simpl. apply elem_of_cons. by right.
Qed.

(** C1.  For mappings [base] and [overlay], [_deep_merge] returns a mapping
    that holds: under a key of both whose two values are mappings, the
    recursive merge of the two values; under any other key of [overlay],
    exactly the overlay value (a list replaces a list, a scalar replaces
    even a nested mapping); under a key of [base] alone, the base value.
    A key is in the result exactly when it is in [base] or in [overlay]. *)
Theorem deep_merge_contents (base overlay : dict) :
  NoDup (keys overlay) ->
  _deep_merge (VDict base) (VDict overlay) = Ok (VDict (deep_merge base overlay)) /\
  (forall key b o,
      dict_get key base = Some (VDict b) ->
      dict_get key overlay = Some (VDict o) ->
      dict_get key (deep_merge base overlay) = Some (VDict (deep_merge b o)) /\
      _deep_merge (VDict b) (VDict o) = Ok (VDict (deep_merge b o))) /\
  (forall key ov,
      dict_get key overlay = Some ov ->
      ~ (exists b o, dict_get key base = Some (VDict b) /\ ov = VDict o) ->
      dict_get key (deep_merge base overlay) = Some ov) /\
  (forall key,
      dict_get key overlay = None ->
      dict_get key (deep_merge base overlay) = dict_get key base) /\
  (forall key,
      key ∈ keys (deep_merge base overlay) <-> key ∈ keys base \/ key ∈ keys overlay).
Proof.
  intros Hnd. split_and!.
  - reflexivity.
  - intros key b o Hb Ho. split; [|reflexivity].
    by rewrite deep_merge_get, Ho, Hb.
  - intros key ov Ho Hnot. rewrite deep_merge_get, Ho by done.
    destruct (dict_get key base) as [[]|] eqn:Hb; try done.
    destruct ov; try done. destruct Hnot. eauto.
  - intros key Ho. by rewrite deep_merge_get, Ho.
  - intros key. split.
    + intros Hin. apply dict_get_is_Some in Hin as [v Hv].
      rewrite deep_merge_get in Hv by done.
      destruct (dict_get key overlay) eqn:Ho.
      * right. by eapply dict_get_Some_keys.
      * left. by eapply dict_get_Some_keys.
    + intros Hin.
      assert (is_Some (dict_get key (deep_merge base overlay))) as [v Hv].
      { rewrite deep_merge_get by done.
        destruct (dict_get key overlay) as [ov|] eqn:Ho.
        - destruct (dict_get key base) as [[]|]; destruct ov; by eexists.
        - destruct Hin as [Hin|Hin]; [by apply dict_get_is_Some|].
          apply dict_get_is_Some in Hin as [? ?]. congruence. }
      by eapply dict_get_Some_keys.
Qed.

Lemma deep_merge_contents_witness :
  NoDup (keys [("hooks", VDict [("PreToolUse", VList [VInt 3]); ("New", VList [VInt 4])])]) /\
  _deep_merge
    (VDict [("hooks", VDict [("PreToolUse", VList [VInt 1]); ("Stop", VList [VInt 2])])])
    (VDict [("hooks", VDict [("PreToolUse", VList [VInt 3]); ("New", VList [VInt 4])])])
  = Ok (VDict [("hooks", VDict [("PreToolUse", VList [VInt 3]);
                                ("Stop", VList [VInt 2]);
                                ("New", VList [VInt 4])])]).
Proof.
  assert (H : NoDup (keys [("hooks", VDict [("PreToolUse", VList [VInt 3]);
                                            ("New", VList [VInt 4])])])).
  { simpl. apply NoDup_singleton. }
  split; [exact H|].
  destruct (deep_merge_contents
              [("hooks", VDict [("PreToolUse", VList [VInt 1]); ("Stop", VList [VInt 2])])]
              _ H) as [Heq _].
  rewrite Heq. reflexivity.
Defined.

(** C6.  The empty mapping is a right and a left identity of the merge:
    [merge(A, {}) == A] and [merge({}, B) == B]. *)
Theorem deep_merge_empty_identity :
  (forall a : dict, _deep_merge (VDict a) (VDict []) = Ok (VDict a)) /\
  (forall b : dict, NoDup (keys b) -> _deep_merge (VDict []) (VDict b) = Ok (VDict b)).
Proof.
  split; [reflexivity|].
  intros b Hnd. simpl. rewrite deep_merge_fresh; [done|done|].
  intros key _ Hin. by apply elem_of_nil in Hin.
Qed.

Lemma deep_merge_empty_identity_witness :
  _deep_merge (VDict [("a", VInt 1)]) (VDict []) = Ok (VDict [("a", VInt 1)]) /\
  NoDup (keys [("a", VInt 1); ("b", VList [])]) /\
  _deep_merge (VDict []) (VDict [("a", VInt 1); ("b", VList [])])
  = Ok (VDict [("a", VInt 1); ("b", VList [])]).
Proof.
  assert (H : NoDup (keys [("a", VInt 1); ("b", VList [])])).
  { apply (bool_decide_unpack _). vm_compute. reflexivity. }
  split_and!; [|exact H|].
  - apply (proj1 deep_merge_empty_identity).
  - apply (proj2 deep_merge_empty_identity), H.
Defined.

(** ** Induction on objects *)

Lemma value_ind (P : value -> Prop) :
  P VNull ->
  (forall b, P (VBool b)) ->
  (forall n, P (VInt n)) ->
  (forall s, P (VStr s)) ->
  (forall items, Forall P items -> P (VList items)) ->
  (forall items, Forall (fun kv => P kv.2) items -> P (VDict items)) ->
  forall v, P v.
Proof.
  intros Hnull Hbool Hint Hstr Hlist Hdict.
  fix IH 1. intros [| b | n | s | items | items].
  - exact Hnull.
  - apply Hbool.
  - apply Hint.
  - apply Hstr.
  - apply Hlist. induction items as [|x items IHitems]; constructor.
    + apply IH.
    + exact IHitems.
  - apply Hdict. induction items as [|[k x] items IHitems]; constructor.
    + apply IH.
    + exact IHitems.
Qed.

Lemma wf_value_list items : wf_value (VList items) <-> Forall wf_value items.
Proof.
  simpl. induction items as [|x items IH].
  - split; [constructor|done].
  - rewrite Forall_cons, IH. reflexivity.
Qed.

Lemma wf_value_dict items :
  wf_value (VDict items) <->
  NoDup (keys items) /\ Forall (fun kv => wf_value kv.2) items.
Proof.
  simpl. apply and_iff_compat_l. induction items as [|[k x] items IH].
  - split; [constructor|done].
  - rewrite Forall_cons, IH. reflexivity.
Qed.

(** ** Text *)

Lemma chars_str t : chars (str t) = t.
Proof. apply list_ascii_of_string_of_list_ascii. Qed.

Lemma str_chars s : str (chars s) = s.
Proof. apply string_of_list_ascii_of_string. Qed.

Lemma chars_app s1 s2 : chars (s1 +:+ s2) = chars s1 ++ chars s2.
Proof. induction s1 as [|c s1 IH]; simpl; [done|]. by rewrite IH. Qed.

(** ** Strings survive [quote] then [scan_string] *)

Lemma scan_encode_char c t :
  scan_string (encode_char c ++ t) =
  '(s, r) ← scan_string t; Ok (String c s, r).
Proof.
  destruct c as [[] [] [] [] [] [] [] []]; reflexivity.
Qed.

Lemma scan_encode_chars s t :
  scan_string (encode_chars s ++ dquote :: t) = Ok (s, t).
Proof.
  induction s as [|c s IH]; simpl; [done|].
  rewrite <- app_assoc, scan_encode_char, IH. reflexivity.
Qed.

(** ** Integers survive [int_chars] then [scan_number] *)

Lemma scan_uint_chars u t :
  no_digit_ahead t -> scan_uint (uint_chars u ++ t) = (u, t).
Proof.
  intros Ht. induction u; simpl; try (by rewrite IHu).
  destruct t as [|c t]; simpl in *; [done|]. by rewrite Ht.
Qed.

Lemma nzhead_not_D0 d d' : Decimal.nzhead d <> Decimal.D0 d'.
Proof.
  revert d'. induction d; intros d'; simpl; try done. 
Qed.

Lemma to_uint_head p :
  match Pos.to_uint p with
  | Decimal.Nil | Decimal.D0 _ => False
  | _ => True
  end.
Proof.
  pose proof (DecimalPos.Unsigned.to_of (Pos.to_uint p)) as Hto.
  rewrite DecimalPos.Unsigned.of_to in Hto. simpl in Hto.
  pose proof (DecimalPos.Unsigned.to_uint_nonzero p) as Hnz.
  pose proof (DecimalPos.Unsigned.to_uint_nonnil p) as Hnn.
  destruct (Pos.to_uint p) as [|u| | | | | | | | |] eqn:Hu; try done.
  unfold Decimal.unorm in Hto. simpl in Hto.
  destruct (Decimal.nzhead u) eqn:Hh; try discriminate Hto.
  - by inversion Hto; subst.
  - by apply nzhead_not_D0 in Hh.
Qed.

Section Numbers.
Local Open Scope char_scope.

Lemma parse_value_number f t :
  starts_number t = true -> parse_value (S f) t = scan_number t.
Proof.
  destruct t as [|c t]; [done|].
  destruct c as [[] [] [] [] [] [] [] []]; try discriminate; intros _; reflexivity.
Qed.

Lemma is_digit_digit c : is_digit c = true -> exists d, digit c = Some d.
Proof. destruct c as [[] [] [] [] [] [] [] []]; try discriminate; intros _; by eexists. Qed.

Lemma scan_int_chars n t :
  ends_number t -> scan_number (int_chars n ++ t) = Ok (VInt n, t).
Proof.
  intros [Hd Hf]. unfold int_chars.
  pose proof (DecimalZ.of_to n) as Hof.
  destruct n as [|p|p]; simpl in *.
  - unfold scan_number. simpl. unfold finish_number. by rewrite Hf.
  - pose proof (to_uint_head p) as Hh.
    destruct (Pos.to_uint p) eqn:Hu; try done;
      unfold scan_number; simpl; rewrite scan_uint_chars by done;
      unfold finish_number; rewrite Hf; by rewrite <- Hof.
  - pose proof (to_uint_head p) as Hh.
    destruct (Pos.to_uint p) eqn:Hu; try done;
      unfold scan_number; simpl; rewrite scan_uint_chars by done;
      unfold finish_number; rewrite Hf; by rewrite <- Hof.
Qed.

Lemma starts_number_int_chars n t : starts_number (int_chars n ++ t) = true.
Proof.
  unfold int_chars. destruct n as [|p|p]; simpl; try done.
  pose proof (to_uint_head p) as Hh.
  destruct (Pos.to_uint p); done.
Qed.


End Numbers.

(** ** Objects survive [encode] then [parse_value] *)

Section Roundtrip.
Local Open Scope char_scope.
Local Open Scope nat_scope.

Lemma size_list items : size (VList items) = S (sizes items).
Proof. unfold sizes. induction items as [|x l IH]; [done|]. simpl in *. lia. Qed.

Lemma size_dict items : size (VDict items) = S (sizes2 items).
Proof. unfold sizes2. induction items as [|[k x] l IH]; [done|]. simpl in *. lia. Qed.

Lemma size_pos v : 1 <= size v.
Proof. destruct v; simpl; lia. Qed.

Lemma encode_list_cons lvl x xs :
  encode lvl (VList (x :: xs)) =
  "[" :: indent (S lvl) ++ encode (S lvl) x ++ encode_items lvl xs
      ++ indent lvl ++ ["]"].
Proof.
  cbn [encode]. do 3 f_equal. f_equal.
  induction xs as [|y xs IH]; cbn [encode_items]; [done|]. by rewrite IH.
Qed.

Lemma encode_dict_cons lvl k x xs :
  encode lvl (VDict ((k, x) :: xs)) =
  "{" :: indent (S lvl) ++ quote k ++ ":" :: " " :: encode (S lvl) x
      ++ encode_pairs lvl xs ++ indent lvl ++ ["}"].
Proof.
  cbn [encode]. do 6 f_equal. f_equal.
  induction xs as [|[k' y] xs IH]; cbn [encode_pairs]; [done|]. by rewrite IH.
Qed.

Lemma starts_number_opener c t : starts_number (c :: t) = true -> opener c = true.
Proof. destruct c as [[] [] [] [] [] [] [] []]; try discriminate; done. Qed.

Lemma encode_head lvl v : exists c r, encode lvl v = c :: r /\ opener c = true.
Proof.
  destruct v as [| [] | n | s | [|x xs] | [|[k x] xs]]; try (by eexists _, _).
  pose proof (starts_number_int_chars n []) as Hn. simpl.
  rewrite app_nil_r in Hn. destruct (int_chars n) as [|c r]; [done|].
  exists c, r. split; [done|]. by eapply starts_number_opener.
Qed.

Lemma skip_ws_opener c t : opener c = true -> skip_ws (c :: t) = c :: t.
Proof.
  unfold opener. simpl. by destruct (is_ws c).
Qed.

Lemma skip_ws_spaces n t : skip_ws (repeat " " n ++ t) = skip_ws t.
Proof. induction n; simpl; [done|]. exact IHn. Qed.

Lemma skip_ws_indent lvl t : skip_ws (indent lvl ++ t) = skip_ws t.
Proof. unfold indent. simpl. apply skip_ws_spaces. Qed.

Lemma expect_opener c t :
  opener c = true -> expect "]" (c :: t) = None /\ expect "}" (c :: t) = None.
Proof.
  unfold opener. simpl.
  destruct (Ascii.eqb c "]"), (Ascii.eqb c "}"), (is_ws c), (py_isspace c); done.
Qed.

Lemma ends_number_comma t : ends_number ("," :: t).
Proof. by split. Qed.

Lemma ends_number_indent lvl t : ends_number (indent lvl ++ t).
Proof. by split. Qed.


Lemma skip_ws_encode lvl v t : skip_ws (encode lvl v ++ t) = encode lvl v ++ t.
Proof.
  destruct (encode_head lvl v) as (c & r & -> & Hop).
  rewrite <- app_comm_cons. by apply skip_ws_opener.
Qed.

Lemma expect_encode lvl v t :
  expect "]" (encode lvl v ++ t) = None /\ expect "}" (encode lvl v ++ t) = None.
Proof.
  destruct (encode_head lvl v) as (c & r & -> & Hop).
  rewrite <- app_comm_cons. by apply expect_opener.
Qed.

Lemma skip_ws_quote k t : skip_ws (quote k ++ t) = quote k ++ t.
Proof. reflexivity. Qed.

Lemma expect_quote k t :
  expect dquote (quote k ++ t) = Some (encode_chars k ++ dquote :: t).
Proof. unfold quote. simpl. by rewrite <- app_assoc. Qed.

Lemma parse_value_quote f s t :
  parse_value (S f) (quote s ++ t) = Ok (VStr s, t).
Proof.
  unfold quote. simpl. rewrite <- app_assoc. simpl.
  by rewrite scan_encode_chars.
Qed.

Lemma expect_close_quote k t : expect "}" (quote k ++ t) = None.
Proof. reflexivity. Qed.

#[local] Opaque indent quote.

Lemma parse_elems_encode pv lvl t xs : forall x n,
  (forall y, y ∈ x :: xs -> forall t', ends_number t' ->
     pv (encode (S lvl) y ++ t') = Ok (y, t')) ->
  length (x :: xs) <= n ->
  parse_elems pv n
    (encode (S lvl) x ++ encode_items lvl xs ++ indent lvl ++ "]" :: t)
  = Ok (x :: xs, t).
Proof.
  induction xs as [|y xs IH]; intros x n Hpv Hn;
    (destruct n as [|n]; [simpl in Hn; lia|]); simpl.
  - rewrite Hpv; [|apply list_elem_of_here|apply ends_number_indent].
    simpl. rewrite skip_ws_indent. simpl. reflexivity.
  - rewrite Hpv; [|apply list_elem_of_here|apply ends_number_comma].
    simpl. rewrite <- !app_assoc. rewrite skip_ws_indent, skip_ws_encode.
    rewrite IH; [done| |simpl in Hn |- *; lia].
    intros z Hz. apply Hpv. by apply list_elem_of_further.
Qed.

Lemma parse_members_encode pv lvl t xs : forall k x n,
  (forall kv, kv ∈ (k, x) :: xs -> forall t', ends_number t' ->
     pv (encode (S lvl) kv.2 ++ t') = Ok (kv.2, t')) ->
  length ((k, x) :: xs) <= n ->
  parse_members pv n
    (quote k ++ ":" :: " " :: encode (S lvl) x ++ encode_pairs lvl xs
       ++ indent lvl ++ "}" :: t)
  = Ok ((k, x) :: xs, t).
Proof.
  induction xs as [|[k' y] xs IH]; intros k x n Hpv Hn;
    (destruct n as [|n]; [simpl in Hn; lia|]).
  - cbn [parse_members]. rewrite expect_quote, scan_encode_chars.
    simpl. rewrite skip_ws_encode.
    pose proof (Hpv (k, x) (list_elem_of_here _ _)) as Hx. simpl in Hx.
    rewrite Hx by apply ends_number_indent.
    simpl. rewrite skip_ws_indent. simpl. reflexivity.
  - cbn [parse_members]. rewrite expect_quote, scan_encode_chars.
    simpl. rewrite skip_ws_encode.
    pose proof (Hpv (k, x) (list_elem_of_here _ _)) as Hx. simpl in Hx.
    rewrite Hx by apply ends_number_comma.
    simpl. rewrite <- !app_assoc. rewrite skip_ws_indent, skip_ws_quote.
    repeat (rewrite <- app_comm_cons || rewrite <- app_assoc).
    rewrite IH; [done| |simpl in Hn |- *; lia].
    intros z Hz. apply Hpv. by apply list_elem_of_further.
Qed.

Lemma size_le_sizes y items : y ∈ items -> size y <= sizes items.
Proof.
  induction 1 as [|y x l ? IH]; simpl; [lia|]. unfold sizes in *. simpl. lia.
Qed.

Lemma length_le_sizes items : length items <= sizes items.
Proof.
  induction items as [|x l IH]; simpl; [lia|].
  pose proof (size_pos x). unfold sizes in *. simpl. lia.
Qed.

Lemma size_le_sizes2 kv items : kv ∈ items -> size kv.2 <= sizes2 items.
Proof.
  induction 1 as [|y x l ? IH]; simpl; [lia|]. unfold sizes2 in *. simpl. lia.
Qed.

Lemma length_le_sizes2 items : length items <= sizes2 items.
Proof.
  induction items as [|x l IH]; simpl; [lia|].
  pose proof (size_pos x.2). unfold sizes2 in *. simpl. lia.
Qed.

Lemma dict_of_pairs_from pairs : forall acc,
  NoDup (keys (acc ++ pairs)) ->
  fold_left (fun d kv => dict_set kv.1 kv.2 d) pairs acc = acc ++ pairs.
Proof.
  induction pairs as [|[k v] pairs IH]; intros acc Hnd; simpl.
  - by rewrite app_nil_r.
  - assert (Hk : dict_get k acc = None).
    { apply dict_get_None. unfold keys in Hnd. rewrite map_app in Hnd.
      apply NoDup_app in Hnd as (_ & Hdis & _). intros Hin.
      apply (Hdis k Hin). simpl. apply list_elem_of_here. }
    rewrite dict_set_absent by done. rewrite IH; rewrite <- app_assoc; done.
Qed.

Lemma dict_of_pairs_id d : NoDup (keys d) -> dict_of_pairs d = d.
Proof. intros Hnd. unfold dict_of_pairs. by rewrite dict_of_pairs_from. Qed.

Lemma parse_encode v :
  wf_value v -> forall fuel lvl t,
  size v <= fuel -> ends_number t ->
  parse_value fuel (encode lvl v ++ t) = Ok (v, t).
Proof.
  induction v as [| b | n | s | items IH | items IH] using value_ind;
    intros Hwf fuel lvl t Hfuel Ht;
    (destruct fuel as [|f]; [simpl in Hfuel; lia|]).
  - reflexivity.
  - by destruct b.
  - cbn [encode]. rewrite parse_value_number by apply starts_number_int_chars.
    by apply scan_int_chars.
  - cbn [encode]. apply parse_value_quote.
  - apply wf_value_list in Hwf. rewrite size_list in Hfuel.
    destruct items as [|x xs]; [reflexivity|].
    rewrite encode_list_cons. simpl.
    repeat (rewrite <- app_comm_cons || rewrite <- app_assoc).
    rewrite skip_ws_indent, skip_ws_encode.
    rewrite (proj1 (expect_encode _ _ _)).
    rewrite parse_elems_encode; [done| |pose proof (length_le_sizes (x :: xs)); lia].
    intros y Hy t' Ht'.
    rewrite Forall_forall in IH. rewrite Forall_forall in Hwf.
    apply IH; [done|by apply Hwf| |done].
    pose proof (size_le_sizes y _ Hy). lia.
  - apply wf_value_dict in Hwf as [Hnd Hwf]. rewrite size_dict in Hfuel.
    destruct items as [|[k x] xs]; [reflexivity|].
    rewrite encode_dict_cons. simpl.
    repeat (rewrite <- app_comm_cons || rewrite <- app_assoc).
    rewrite skip_ws_indent, skip_ws_quote.
    rewrite expect_close_quote.
    rewrite parse_members_encode;
      [|  |pose proof (length_le_sizes2 ((k, x) :: xs)); lia].
    + simpl. by rewrite dict_of_pairs_id.
    + intros y Hy t' Ht'.
      rewrite Forall_forall in IH. rewrite Forall_forall in Hwf.
      apply IH; [done|by apply Hwf| |done].
      pose proof (size_le_sizes2 y _ Hy). lia.
Qed.
End Roundtrip.
Lemma sizes_le_encode_items lvl xs :
  Forall (fun y => forall lvl, size y <= length (encode lvl y))%nat xs ->
  (sizes xs <= length (encode_items lvl xs))%nat.
Proof.
  induction 1 as [|y xs Hy _ IH]; simpl; [lia|].
  specialize (Hy (S lvl)). unfold sizes in *. simpl.
  rewrite !length_app. lia.
Qed.

Lemma sizes2_le_encode_pairs lvl xs :
  Forall (fun kv => forall lvl, size kv.2 <= length (encode lvl kv.2))%nat xs ->
  (sizes2 xs <= length (encode_pairs lvl xs))%nat.
Proof.
  induction 1 as [|[k y] xs Hy _ IH]; simpl; [lia|].
  specialize (Hy (S lvl)). unfold sizes2 in *. simpl in *.
  repeat (progress (rewrite ?length_app; simpl)). lia.
Qed.

Lemma size_le_encode v : forall lvl, (size v <= length (encode lvl v))%nat.
Proof.
  induction v as [| b | n | s | items IH | items IH] using value_ind; intros lvl.
  - simpl. lia.
  - destruct b; simpl; lia.
  - simpl. pose proof (starts_number_int_chars n []) as Hn.
    rewrite app_nil_r in Hn. destruct (int_chars n); [done|]. simpl. lia.
  - simpl. lia.
  - rewrite size_list. destruct items as [|x xs]; [simpl; lia|].
    rewrite encode_list_cons. apply Forall_cons in IH as [Hx Hxs].
    pose proof (sizes_le_encode_items lvl xs Hxs). specialize (Hx (S lvl)).
    simpl. rewrite !length_app. unfold sizes in *. simpl. lia.
  - rewrite size_dict. destruct items as [|[k x] xs]; [simpl; lia|].
    rewrite encode_dict_cons. apply Forall_cons in IH as [Hx Hxs].
    pose proof (sizes2_le_encode_pairs lvl xs Hxs). specialize (Hx (S lvl)).
    unfold sizes2 in *. simpl in *.
    repeat (progress (rewrite ?length_app; simpl)). lia.
Qed.

(** [json.loads(json.dumps(v, indent=2) + "\n") == v] *)
Lemma json_loads_dumps v :
  wf_value v -> json_loads (json_dumps v +:+ nl) = Ok v.
Proof.
  intros Hwf. unfold json_loads, json_dumps, decode.
  rewrite chars_app, chars_str. change (chars nl) with [newline].
  rewrite skip_ws_encode, parse_encode; [done|done| |by split].
  pose proof (size_le_encode v 0). rewrite length_app. simpl. lia.
Qed.

(** ** Blank text *)

Lemma lstrip_nil_iff t : lstrip t = [] <-> forallb py_isspace t = true.
Proof.
  induction t as [|c t IH]; simpl; [done|].
  destruct (py_isspace c); simpl; [exact IH|]. split; discriminate.
Qed.

Lemma forallb_rev {A} (f : A -> bool) l : forallb f (rev l) = forallb f l.
Proof.
  induction l as [|x l IH]; simpl; [done|].
  rewrite forallb_app, IH. simpl. destruct (f x), (forallb f l); done.
Qed.

Lemma lstrip_forallb t : forallb py_isspace (lstrip t) = forallb py_isspace t.
Proof.
  induction t as [|c t IH]; simpl; [done|].
  destruct (py_isspace c) eqn:Hc; simpl; [done|]. by rewrite Hc.
Qed.

Lemma strip_nil_iff t : strip t = [] <-> forallb py_isspace t = true.
Proof.
  unfold strip. split.
  - intros H. apply (f_equal (@rev ascii)) in H. rewrite rev_involutive in H.
    simpl in H. apply lstrip_nil_iff in H. rewrite forallb_rev in H.
    by rewrite lstrip_forallb in H.
  - intros H. apply lstrip_nil_iff in H. by rewrite H.
Qed.

Lemma is_blank_spec s : is_blank s = forallb py_isspace (chars s).
Proof.
  unfold is_blank. destruct (strip (chars s)) eqn:Hs.
  - symmetry. by apply strip_nil_iff.
  - destruct (forallb py_isspace (chars s)) eqn:Hf; [|done].
    apply strip_nil_iff in Hf. congruence.
Qed.

Lemma parse_value_space f c t :
  py_isspace c = true -> is_ws c = false ->
  parse_value (S f) (c :: t) = Raise JSONDecodeError.
Proof.
  destruct c as [[] [] [] [] [] [] [] []]; try discriminate; reflexivity.
Qed.

Lemma parse_blank f t :
  forallb py_isspace t = true ->
  parse_value (S f) (skip_ws t) = Raise JSONDecodeError.
Proof.
  induction t as [|c t IH]; simpl; [done|].
  intros [Hc Ht]%andb_prop. destruct (is_ws c) eqn:Hws; [by apply IH|].
  by apply parse_value_space.
Qed.

(** Blank text is not JSON: [json.loads] raises on it. *)
Lemma json_loads_blank s :
  is_blank s = true -> json_loads s = Raise JSONDecodeError.
Proof.
  rewrite is_blank_spec. intros H. unfold json_loads, decode.
  by rewrite parse_blank.
Qed.

Lemma json_dumps_not_blank v : is_blank (json_dumps v +:+ nl) = false.
Proof.
  rewrite is_blank_spec. unfold json_dumps. rewrite chars_app, chars_str.
  destruct (encode_head 0 v) as (c & r & -> & Hop). simpl.
  unfold opener in Hop. by destruct (py_isspace c), (is_ws c).
Qed.
(** ** What [json.loads] returns is a well-formed object *)

Lemma Forall_values_dict_set key v d :
  wf_value v -> Forall (fun kv => wf_value kv.2) d ->
  Forall (fun kv => wf_value kv.2) (dict_set key v d).
Proof.
  intros Hv. induction 1 as [|[k x] d Hx Hd IH]; simpl.
  - by constructor.
  - destruct (String.eqb key k); constructor; done.
Qed.

Lemma dict_of_pairs_wf pairs :
  Forall (fun kv => wf_value kv.2) pairs -> wf_value (VDict (dict_of_pairs pairs)).
Proof.
  intros Hps. apply wf_value_dict. unfold dict_of_pairs.
  assert (Hacc : NoDup (keys []) /\ Forall (fun kv : string * value => wf_value kv.2) [])
    by (split; constructor).
  revert Hacc. generalize (@nil (string * value)) as acc.
  induction Hps as [|[k v] pairs Hv _ IH]; intros acc [Hnd Hwf]; simpl; [done|].
  apply IH. split; [by apply NoDup_keys_dict_set|by apply Forall_values_dict_set].
Qed.

Section ParseWf.
Variable pv : text -> result (value * text).
Hypothesis pv_wf : forall t v r, pv t = Ok (v, r) -> wf_value v.

Lemma parse_elems_wf n : forall t vs r,
  parse_elems pv n t = Ok (vs, r) -> Forall wf_value vs.
Proof.
  induction n as [|n IH]; intros t vs r H; simpl in H; [done|].
  destruct (pv t) as [[v t1]|e] eqn:Hpv; simpl in H; [|done].
  apply pv_wf in Hpv.
  destruct (expect _ (skip_ws t1)); [by simplify_eq; constructor|].
  destruct (expect _ (skip_ws t1)); [|done].
  destruct (parse_elems pv n _) as [[vs' r']|e] eqn:Hrec; simpl in H; [|done].
  simplify_eq. constructor; [done|]. by eapply IH.
Qed.

Lemma parse_members_wf n : forall t ps r,
  parse_members pv n t = Ok (ps, r) -> Forall (fun kv => wf_value kv.2) ps.
Proof.
  induction n as [|n IH]; intros t ps r H; simpl in H; [done|].
  destruct (expect dquote t); [|done].
  destruct (scan_string _) as [[k t1]|e]; simpl in H; [|done].
  destruct (expect _ (skip_ws t1)) as [t2|]; [|done].
  destruct (pv (skip_ws t2)) as [[v t3]|e] eqn:Hpv; simpl in H; [|done].
  apply pv_wf in Hpv.
  destruct (expect _ (skip_ws t3)); [by simplify_eq; constructor|].
  destruct (expect _ (skip_ws t3)); [|done].
  destruct (parse_members pv n _) as [[ps' r']|e] eqn:Hrec; simpl in H; [|done].
  simplify_eq. constructor; [done|]. by eapply IH.
Qed.
End ParseWf.

Lemma scan_number_int t v r : scan_number t = Ok (v, r) -> exists n, v = VInt n.
Proof.
  unfold scan_number, finish_number, not_a_number. intros H.
  repeat (match type of H with
          | context [match ?x with _ => _ end] => destruct x
          | context [if ?x then _ else _] => destruct x
          end; try done); simplify_eq; by eexists.
Qed.

#[local] Opaque is_prefix scan_number.

Lemma parse_value_wf fuel : forall t v r,
  parse_value fuel t = Ok (v, r) -> wf_value v.
Proof.
  induction fuel as [|f IH]; intros t v r H; simpl in H; [done|].
  destruct t as [|c t]; [done|].
  destruct (Ascii.eqb c dquote).
  { destruct (scan_string t) as [[s r']|]; simpl in H; [|done]. by simplify_eq. }
  destruct (Ascii.eqb c "{").
  { destruct (expect _ (skip_ws t));
      [simplify_eq; apply wf_value_dict; split; constructor|].
    destruct (parse_members _ f _) as [[ps r']|] eqn:Hps; simpl in H; [|done].
    simplify_eq. apply dict_of_pairs_wf. by eapply parse_members_wf. }
  destruct (Ascii.eqb c "[").
  { destruct (expect _ (skip_ws t)); [by simplify_eq|].
    destruct (parse_elems _ f _) as [[vs r']|] eqn:Hvs; simpl in H; [|done].
    simplify_eq. apply wf_value_list. by eapply parse_elems_wf. }
  destruct (is_prefix _ _); [by simplify_eq|].
  destruct (is_prefix _ _); [by simplify_eq|].
  destruct (is_prefix _ _); [by simplify_eq|].
  apply scan_number_int in H as [n ->]. done.
Qed.

#[local] Transparent is_prefix scan_number.

Lemma json_loads_wf s v : json_loads s = Ok v -> wf_value v.
Proof.
  unfold json_loads, decode. intros H.
  destruct (parse_value _ _) as [[v' r]|] eqn:Hp; simpl in H; [|done].
  destruct (skip_ws r); [|done]. simplify_eq. by eapply parse_value_wf.
Qed.
(** ** The fuel of [json_loads] is never used up *)

Section Fuel.
Local Open Scope nat_scope.

Lemma skip_ws_length t : length (skip_ws t) <= length t.
Proof.
  induction t as [|c t IH]; simpl; [lia|]. destruct (is_ws c); simpl; lia.
Qed.

Lemma expect_length c t r : expect c t = Some r -> length t = S (length r).
Proof.
  destruct t as [|x t]; simpl; [done|].
  destruct (Ascii.eqb x c); [|done]. by intros [= ->].
Qed.

Lemma scan_string_bounded n : forall t, length t <= n ->
  scan_string t <> Raise RecursionError /\
  forall s r, scan_string t = Ok (s, r) -> length r < length t.
Proof.
  induction n as [|n IH]; intros t Hn.
  { destruct t; [|simpl in Hn; lia]. by split. }
  destruct t as [|c t1]; [by split|]. simpl in Hn. simpl.
  destruct (Ascii.eqb c dquote).
  { split; [done|]. intros s r [= <- <-]. simpl. lia. }
  destruct (Ascii.eqb c backslash).
  - destruct t1 as [|e t2]; [by split|]. simpl in Hn.
    destruct (Ascii.eqb e "u").
    + destruct t2 as [|h1 [|h2 [|h3 [|h4 t3]]]]; try (by split).
      destruct (hex4 h1 h2 h3 h4) as [k|]; [|by split].
      destruct (k <? 256); [|by split].
      destruct (IH t3) as [Hne Hlt]; [simpl in Hn; lia|].
      destruct (scan_string t3) as [[s r]|e'] eqn:Hs; simpl.
      * split; [done|]. intros s' r' [= <- <-]. specialize (Hlt _ _ eq_refl).
        simpl. lia.
      * split; [congruence|done].
    + destruct (unescape e); [|by split].
      destruct (IH t2) as [Hne Hlt]; [lia|].
      destruct (scan_string t2) as [[s r]|e'] eqn:Hs; simpl.
      * split; [done|]. intros s' r' [= <- <-]. specialize (Hlt _ _ eq_refl).
        simpl. lia.
      * split; [congruence|done].
  - destruct (code c <? 32); [by split|].
    destruct (IH t1) as [Hne Hlt]; [lia|].
    destruct (scan_string t1) as [[s r]|e'] eqn:Hs; simpl.
    + split; [done|]. intros s' r' [= <- <-]. specialize (Hlt _ _ eq_refl).
      simpl. lia.
    + split; [congruence|done].
Qed.

Lemma scan_string_shrinks f : shrinks scan_string f.
Proof. intros t _. by apply (scan_string_bounded (length t)). Qed.

Lemma scan_uint_length t : forall u r, scan_uint t = (u, r) -> length r <= length t.
Proof.
  induction t as [|c t IH]; simpl; intros u r.
  - intros [= <- <-]. simpl. lia.
  - destruct (digit c).
    + destruct (scan_uint t) as [u' r']. intros [= <- <-].
      specialize (IH _ _ eq_refl). lia.
    + intros [= <- <-]. simpl. lia.
Qed.

Lemma finish_number_rest neg u r v r' :
  finish_number neg u r = Ok (v, r') -> r' = r.
Proof. unfold finish_number. destruct (is_float_tail r); [done|]. by intros [= _ <-]. Qed.

Lemma scan_number_shrinks f : shrinks scan_number f.
Proof.
  intros t _. unfold scan_number, finish_number, not_a_number. split.
  - repeat (match goal with
            | |- context [match ?x with _ => _ end] => destruct x
            | |- context [if ?x then _ else _] => destruct x
            end; try done).
  - intros v r H.
    destruct (expect "-" t) as [t1|] eqn:He.
    + apply expect_length in He. destruct t1 as [|c r1]; [|].
      { repeat (match type of H with
                | context [if ?x then _ else _] => destruct x
                end; try done). }
      destruct (Ascii.eqb c "0").
      { destruct (is_float_tail r1); [done|]. injection H as _ <-. simpl in *. lia. }
      destruct (is_digit c); [|repeat (match type of H with
                | context [if ?x then _ else _] => destruct x
                end; try done)].
      destruct (scan_uint (c :: r1)) as [u r'] eqn:Hu.
      apply scan_uint_length in Hu.
      destruct (is_float_tail r'); [done|]. injection H as _ <-. simpl in *. lia.
    + destruct t as [|c r1].
      { repeat (match type of H with
                | context [if ?x then _ else _] => destruct x
                end; try done). }
      destruct (Ascii.eqb c "0").
      { destruct (is_float_tail r1); [done|]. injection H as _ <-. simpl in *. lia. }
      destruct (is_digit c) eqn:Hd; [|repeat (match type of H with
                | context [if ?x then _ else _] => destruct x
                end; try done)].
      destruct (is_digit_digit c Hd) as [d Hdig].
      destruct (scan_uint (c :: r1)) as [u r'] eqn:Hu.
      simpl in Hu. rewrite Hdig in Hu.
      destruct (scan_uint r1) as [u1 r1'] eqn:Hu1. injection Hu as <- <-.
      apply scan_uint_length in Hu1.
      destruct (is_float_tail r1'); [done|]. injection H as _ <-. simpl. lia.
Qed.

Section Containers.
Variable pv : text -> result (value * text).
Variable f : nat.
Hypothesis pv_shrinks : shrinks pv f.

Lemma parse_elems_shrinks n : forall t,
  length t < n -> length t < f ->
  parse_elems pv n t <> Raise RecursionError /\
  forall vs r, parse_elems pv n t = Ok (vs, r) -> length r < length t.
Proof.
  induction n as [|n IH]; intros t Hn Hf; [lia|]. simpl.
  destruct (pv_shrinks t Hf) as [Hne Hlt].
  destruct (pv t) as [[v t1]|e]; simpl; [|split; [congruence|done]].
  specialize (Hlt _ _ eq_refl). pose proof (skip_ws_length t1) as Hws.
  destruct (expect "]" (skip_ws t1)) as [r|] eqn:He1.
  { apply expect_length in He1. split; [done|]. intros vs r' [= <- <-]. lia. }
  destruct (expect "," (skip_ws t1)) as [t3|] eqn:He2; [|by split].
  apply expect_length in He2. pose proof (skip_ws_length t3) as Hws3.
  destruct (IH (skip_ws t3)) as [Hne' Hlt']; [lia|lia|].
  destruct (parse_elems pv n (skip_ws t3)) as [[vs r]|e]; simpl.
  - split; [done|]. intros vs' r' [= <- <-]. specialize (Hlt' _ _ eq_refl). lia.
  - split; [congruence|done].
Qed.

Lemma parse_members_shrinks n : forall t,
  length t < n -> length t < f ->
  parse_members pv n t <> Raise RecursionError /\
  forall ps r, parse_members pv n t = Ok (ps, r) -> length r < length t.
Proof.
  induction n as [|n IH]; intros t Hn Hf; [lia|]. simpl.
  destruct (expect dquote t) as [t0|] eqn:He0; [|by split].
  apply expect_length in He0.
  destruct (scan_string_shrinks (S (length t0)) t0) as [Hne0 Hlt0]; [lia|].
  destruct (scan_string t0) as [[k t1]|e]; simpl; [|split; [congruence|done]].
  specialize (Hlt0 _ _ eq_refl). pose proof (skip_ws_length t1) as Hws1.
  destruct (expect ":" (skip_ws t1)) as [t2|] eqn:He1; [|by split].
  apply expect_length in He1. pose proof (skip_ws_length t2) as Hws2.
  destruct (pv_shrinks (skip_ws t2)) as [Hne Hlt]; [lia|].
  destruct (pv (skip_ws t2)) as [[v t3]|e]; simpl; [|split; [congruence|done]].
  specialize (Hlt _ _ eq_refl). pose proof (skip_ws_length t3) as Hws3.
  destruct (expect "}" (skip_ws t3)) as [r|] eqn:He2.
  { apply expect_length in He2. split; [done|]. intros ps r' [= <- <-]. lia. }
  destruct (expect "," (skip_ws t3)) as [t5|] eqn:He3; [|by split].
  apply expect_length in He3. pose proof (skip_ws_length t5) as Hws5.
  destruct (IH (skip_ws t5)) as [Hne' Hlt']; [lia|lia|].
  destruct (parse_members pv n (skip_ws t5)) as [[ps r]|e]; simpl.
  - split; [done|]. intros ps' r' [= <- <-]. specialize (Hlt' _ _ eq_refl). lia.
  - split; [congruence|done].
Qed.
End Containers.

#[local] Opaque is_prefix scan_number.

Lemma parse_value_shrinks f : shrinks (parse_value f) f.
Proof.
  induction f as [|f IH]; intros t Hf; [lia|]. simpl.
  destruct t as [|c t1]; [by split|]. simpl in Hf.
  destruct (Ascii.eqb c dquote).
  { destruct (scan_string_shrinks (S (length t1)) t1) as [Hne Hlt]; [lia|].
    destruct (scan_string t1) as [[s r]|e]; simpl; [|split; [congruence|done]].
    split; [done|]. intros v r' [= <- <-]. specialize (Hlt _ _ eq_refl).
    simpl. lia. }
  pose proof (skip_ws_length t1) as Hws.
  destruct (Ascii.eqb c "{").
  { destruct (expect "}" (skip_ws t1)) as [r|] eqn:He.
    { apply expect_length in He. split; [done|]. intros v r' [= <- <-].
      simpl. lia. }
    destruct (parse_members_shrinks _ f IH f (skip_ws t1)) as [Hne Hlt]; [lia|lia|].
    destruct (parse_members _ f (skip_ws t1)) as [[ps r]|e]; simpl;
      [|split; [congruence|done]].
    split; [done|]. intros v r' [= <- <-]. specialize (Hlt _ _ eq_refl).
    simpl. lia. }
  destruct (Ascii.eqb c "[").
  { destruct (expect "]" (skip_ws t1)) as [r|] eqn:He.
    { apply expect_length in He. split; [done|]. intros v r' [= <- <-].
      simpl. lia. }
    destruct (parse_elems_shrinks _ f IH f (skip_ws t1)) as [Hne Hlt]; [lia|lia|].
    destruct (parse_elems _ f (skip_ws t1)) as [[vs r]|e]; simpl;
      [|split; [congruence|done]].
    split; [done|]. intros v r' [= <- <-]. specialize (Hlt _ _ eq_refl).
    simpl. lia. }
  destruct (is_prefix _ _).
  { split; [done|]. intros v r [= <- <-]. simpl. rewrite length_drop. lia. }
  destruct (is_prefix _ _).
  { split; [done|]. intros v r [= <- <-]. simpl. rewrite length_drop. lia. }
  destruct (is_prefix _ _).
  { split; [done|]. intros v r [= <- <-]. simpl. rewrite length_drop. lia. }
  apply (scan_number_shrinks (S (length (c :: t1)))). lia.
Qed.

#[local] Transparent is_prefix scan_number.

(** [json_loads] never ends for want of fuel. *)
Lemma json_loads_fuel s : json_loads s <> Raise RecursionError.
Proof.
  unfold json_loads, decode. pose proof (skip_ws_length (chars s)) as Hws.
  destruct (parse_value_shrinks (S (length (chars s))) (skip_ws (chars s)))
    as [Hne _]; [lia|].
  destruct (parse_value _ _) as [[v r]|e]; simpl; [|congruence].
  by destruct (skip_ws r).
Qed.
End Fuel.

(** ** JSON store *)

Lemma read_json_absent w path :
  files w !! path = None -> _read_json w path = Ok (VDict []).
Proof. unfold _read_json. by intros ->. Qed.

Lemma read_json_blank w path t :
  files w !! path = Some t -> is_blank t = true -> _read_json w path = Ok (VDict []).
Proof. unfold _read_json. by intros -> ->. Qed.

Lemma read_json_text w path t :
  files w !! path = Some t -> is_blank t = false -> _read_json w path = json_loads t.
Proof. unfold _read_json. by intros -> ->. Qed.

Lemma read_json_wf w path v : _read_json w path = Ok v -> wf_value v.
Proof.
  unfold _read_json. destruct (files w !! path) as [t|].
  - destruct (is_blank t).
    + intros [= <-]. apply wf_value_dict. split; constructor.
    + apply json_loads_wf.
  - intros [= <-]. apply wf_value_dict. split; constructor.
Qed.

Lemma read_write_json w path data :
  wf_value data -> _read_json (_write_json w path data) path = Ok data.
Proof.
  intros Hwf. unfold _read_json, _write_json, write_text. simpl.
  rewrite lookup_insert_eq, json_dumps_not_blank. by apply json_loads_dumps.
Qed.

(** C8.  [_read_json] returns an empty mapping when the file is absent or
    its content is empty or whitespace only; on any other content it is
    [json.loads] of the content, so it raises exactly when the content is
    not blank and [json.loads] raises on it: the decoder's error comes out
    as it is, with no fallback to an empty mapping. *)
Theorem read_json_outcomes (w : store) (path : string) :
  (files w !! path = None -> _read_json w path = Ok (VDict [])) /\
  (forall t, files w !! path = Some t ->
     is_blank t = forallb py_isspace (chars t) /\
     (is_blank t = true -> _read_json w path = Ok (VDict [])) /\
     (is_blank t = false -> _read_json w path = json_loads t)) /\
  (forall e, _read_json w path = Raise e <->
     exists t, files w !! path = Some t /\ is_blank t = false /\
               json_loads t = Raise e).
Proof.
  split_and!.
  - apply read_json_absent.
  - intros t Ht. split_and!.
    + apply is_blank_spec.
    + by apply read_json_blank.
    + by apply read_json_text.
  - intros e. unfold _read_json. destruct (files w !! path) as [t|]; split.
    + destruct (is_blank t) eqn:Hb; [done|]. intros H. by exists t.
    + intros (t' & [= <-] & -> & H). done.
    + done.
    + by intros (t' & ? & _).
Qed.

Lemma read_json_outcomes_witness :
  _read_json {| files := {["a.json" := "  " +:+ nl]}; out := [] |} "missing.json"
    = Ok (VDict []) /\
  _read_json {| files := {["a.json" := "  " +:+ nl]}; out := [] |} "a.json"
    = Ok (VDict []) /\
  _read_json {| files := {["b.json" := "{oops"]}; out := [] |} "b.json"
    = Raise JSONDecodeError.
Proof.
  split_and!.
  - apply (proj1 (read_json_outcomes _ _)). reflexivity.
  - destruct (read_json_outcomes
                {| files := {["a.json" := "  " +:+ nl]}; out := [] |} "a.json")
      as (_ & H & _).
    destruct (H ("  " +:+ nl)) as (_ & Hb & _); [reflexivity|].
    apply Hb. reflexivity.
  - apply (proj2 (proj2 (read_json_outcomes _ "b.json")) JSONDecodeError).
    exists "{oops". split_and!; reflexivity.
Defined.

(** C10.  When the content of the file parses as a JSON value that is not
    an object, [_read_json] returns that value as it is, neither an empty
    mapping nor an error; a caller that takes it for a mapping, as the MCP
    merge does, fails on it with [AttributeError]. *)
Theorem read_json_non_mapping (w : store) (path t : string) (v : value) :
  files w !! path = Some t ->
  json_loads t = Ok v ->
  is_mapping v = false ->
  _read_json w path = Ok v /\
  v <> VDict [] /\
  (forall mcp_data, merged_document v mcp_data = Raise AttributeError).
Proof.
  intros Hf Hl Hm. split_and!.
  - rewrite (read_json_text _ _ t Hf); [done|].
    destruct (is_blank t) eqn:Hb; [|done].
    rewrite json_loads_blank in Hl; done.
  - by intros ->.
  - intros mcp_data. by destruct v.
Qed.

Lemma read_json_non_mapping_witness :
  _read_json {| files := {["c.json" := "[1, 2]"]}; out := [] |} "c.json"
    = Ok (VList [VInt 1; VInt 2]) /\
  _read_json {| files := {["c.json" := "null"]}; out := [] |} "c.json"
    = Ok VNull.
Proof.
  split.
  - apply (read_json_non_mapping _ "c.json" "[1, 2]"); reflexivity.
  - apply (read_json_non_mapping _ "c.json" "null"); reflexivity.
Defined.
(** ** [_set_filesystem_path] *)

Lemma wf_dict_get d key v :
  wf_value (VDict d) -> dict_get key d = Some v -> wf_value v.
Proof.
  intros [_ Hwf]%wf_value_dict. induction Hwf as [|[k x] d Hx _ IH]; simpl; [done|].
  destruct (String.eqb key k); [by intros [= <-]|done].
Qed.

Lemma wf_dict_set d key v :
  wf_value (VDict d) -> wf_value v -> wf_value (VDict (dict_set key v d)).
Proof.
  intros [Hnd Hwf]%wf_value_dict Hv. apply wf_value_dict. split.
  - by apply NoDup_keys_dict_set.
  - by apply Forall_values_dict_set.
Qed.

Lemma wf_empty_dict : wf_value (VDict []).
Proof. split; [constructor|done]. Qed.

Lemma wf_default_dict d key :
  wf_value (VDict d) -> wf_value (default (VDict []) (dict_get key d)).
Proof.
  intros Hwf. destruct (dict_get key d) eqn:Hg; simpl.
  - by eapply wf_dict_get.
  - apply wf_empty_dict.
Qed.

Lemma Forall_removelast {A} (P : A -> Prop) l :
  Forall P l -> Forall P (removelast l).
Proof.
  induction 1 as [|x l Hx Hl IH]; simpl; [constructor|].
  destruct l; [constructor|]. by constructor.
Qed.

Lemma wf_new_args l path_value :
  wf_value (VList l) -> wf_value (VList (new_args l path_value)).
Proof.
  rewrite !wf_value_list. intros Hl. destruct l as [|x l]; simpl.
  - by repeat constructor.
  - apply Forall_app. split; [|by repeat constructor].
    by apply (Forall_removelast _ (x :: l)).
Qed.

Lemma last_new_args l path_value :
  last (new_args l path_value) = Some (VStr path_value).
Proof. destruct l; [done|]. unfold new_args. apply last_snoc. Qed.

Lemma fs_args_inv doc l :
  fs_args doc = Ok (VList l) ->
  exists d servers fs_config,
    doc = VDict d /\
    default (VDict []) (dict_get "mcpServers" d) = VDict servers /\
    default (VDict []) (dict_get "filesystem" servers) = VDict fs_config /\
    default (VList []) (dict_get "args" fs_config) = VList l.
Proof.
  unfold fs_args, py_get. intros H.
  destruct doc as [| | | | |d]; simpl in H; try done.
  destruct (default (VDict []) (dict_get "mcpServers" d))
    as [| | | | |servers] eqn:Hs; simpl in H; try done.
  destruct (default (VDict []) (dict_get "filesystem" servers))
    as [| | | | |fs_config] eqn:Hf; simpl in H; try done.
  injection H as H. by exists d, servers, fs_config.
Qed.

Lemma with_fs_path_doc doc l path_value :
  wf_value doc ->
  fs_args doc = Ok (VList l) ->
  exists doc',
    with_fs_path doc path_value = Ok doc' /\
    wf_value doc' /\
    lookup_fs_args doc' = Some (VList (new_args l path_value)) /\
    fs_args doc' = Ok (VList (new_args l path_value)) /\
    (forall d, doc = VDict d ->
       exists d', doc' = VDict d' /\
         forall key, key <> "mcpServers" -> dict_get key d' = dict_get key d).
Proof.
  intros Hwf Hargs. unfold with_fs_path. rewrite Hargs.
  cbn [mbind result_bind].
  apply fs_args_inv in Hargs as (d & servers & fs_config & -> & Hs & Hf & Hl).
  pose proof (wf_default_dict d "mcpServers" Hwf) as Hws. rewrite Hs in Hws.
  pose proof (wf_default_dict servers "filesystem" Hws) as Hwc. rewrite Hf in Hwc.
  assert (Hwl : wf_value (VList l)).
  { destruct (dict_get "args" fs_config) eqn:Hg; simpl in Hl; simplify_eq; [|done].
    by eapply wf_dict_get. }
  assert (Hstep :
    (if truthy (VList l)
     then py_setitem_last (VList l) (VStr path_value)
     else py_append (VList l) (VStr path_value))
    = Ok (VList (new_args l path_value))) by (by destruct l).
  rewrite Hstep. cbn [mbind result_bind]. unfold set_fs_args.
  rewrite Hs, Hf. eexists. split_and!; [done| | | |].
  - apply wf_dict_set; [done|]. apply wf_dict_set; [done|].
    apply wf_dict_set; [done|]. by apply wf_new_args.
  - simpl. by rewrite !dict_get_set_eq.
  - unfold fs_args. simpl. rewrite !dict_get_set_eq. simpl.
    rewrite !dict_get_set_eq. simpl. by rewrite !dict_get_set_eq.
  - intros d0 [= <-]. eexists. split; [done|]. intros key Hne.
    by apply dict_get_set_ne.
Qed.

Lemma set_filesystem_path_doc w claude_json_path path_value doc l :
  _read_json w claude_json_path = Ok doc ->
  fs_args doc = Ok (VList l) ->
  exists doc',
    _set_filesystem_path w claude_json_path path_value
      = Ok (_write_json w claude_json_path doc') /\
    _read_json (_write_json w claude_json_path doc') claude_json_path = Ok doc' /\
    lookup_fs_args doc' = Some (VList (new_args l path_value)) /\
    fs_args doc' = Ok (VList (new_args l path_value)).
Proof.
  intros Hread Hargs. pose proof (read_json_wf _ _ _ Hread) as Hwf.
  destruct (with_fs_path_doc doc l path_value Hwf Hargs)
    as (doc' & Hw & Hwf' & Hl & Ha & _).
  exists doc'. unfold _set_filesystem_path. rewrite Hread. simpl. rewrite Hw.
  split_and!; try done. by apply read_write_json.
Qed.

(** C9.  On a client-config document (a mapping whose [mcpServers] and
    [filesystem] entries, where present, are mappings and whose [args],
    where present, is a list) [_set_filesystem_path] writes a document in
    which [mcpServers.filesystem.args] exists: the old list with its last
    element replaced by the value, or the value alone when the list was
    empty or absent. *)
Theorem set_filesystem_path_args (w : store) (claude_json_path path_value : string)
    (doc : value) (l : list value) :
  _read_json w claude_json_path = Ok doc ->
  fs_args doc = Ok (VList l) ->
  exists doc',
    _set_filesystem_path w claude_json_path path_value
      = Ok (_write_json w claude_json_path doc') /\
    _read_json (_write_json w claude_json_path doc') claude_json_path = Ok doc' /\
    lookup_fs_args doc' =
      Some (VList (match l with
                   | [] => [VStr path_value]
                   | _ :: _ => removelast l ++ [VStr path_value]
                   end)).
Proof.
  intros Hread Hargs.
  destruct (set_filesystem_path_doc w claude_json_path path_value doc l Hread Hargs)
    as (doc' & H1 & H2 & H3 & _).
  by exists doc'.
Qed.

Lemma set_filesystem_path_args_witness :
  exists doc',
    _set_filesystem_path
      (_write_json {| files := ∅; out := [] |} "claude.json"
         (VDict [("mcpServers",
                  VDict [("filesystem",
                          VDict [("command", VStr "npx");
                                 ("args", VList [VStr "-y"; VStr "PLACEHOLDER"])])])]))
      "claude.json" "/home/user/code"
    = Ok (_write_json
            (_write_json {| files := ∅; out := [] |} "claude.json"
               (VDict [("mcpServers",
                        VDict [("filesystem",
                                VDict [("command", VStr "npx");
                                       ("args", VList [VStr "-y"; VStr "PLACEHOLDER"])])])]))
            "claude.json" doc') /\
    _read_json
      (_write_json
         (_write_json {| files := ∅; out := [] |} "claude.json"
            (VDict [("mcpServers",
                     VDict [("filesystem",
                             VDict [("command", VStr "npx");
                                    ("args", VList [VStr "-y"; VStr "PLACEHOLDER"])])])]))
         "claude.json" doc') "claude.json" = Ok doc' /\
    lookup_fs_args doc' = Some (VList [VStr "-y"; VStr "/home/user/code"]).
Proof.
  apply (set_filesystem_path_args _ "claude.json" "/home/user/code"
           (VDict [("mcpServers",
                    VDict [("filesystem",
                            VDict [("command", VStr "npx");
                                   ("args", VList [VStr "-y"; VStr "PLACEHOLDER"])])])])
           [VStr "-y"; VStr "PLACEHOLDER"]).
  - vm_compute. reflexivity.
  - reflexivity.
Defined.
(** ** The merge keeps dicts well formed *)

Lemma wf_merge_into overlay :
  forall o, overlay = VDict o -> forall base,
  wf_value (VDict base) -> wf_value overlay -> wf_value (VDict (deep_merge base o)).
Proof.
  induction overlay as [| | | | |items IH] using value_ind; intros o Ho; try done.
  injection Ho as <-. intros base Hb [_ Ho]%wf_value_dict. revert base Hb.
  induction IH as [|[k v] items Hv _ IHitems]; intros base Hb; [done|].
  apply Forall_cons in Ho as [Hwv Ho]. rewrite deep_merge_cons.
  apply IHitems; [done|]. unfold merge_step. cbn [snd] in Hv, Hwv.
  destruct (dict_get k base) as [bv|] eqn:Hg; [|by apply wf_dict_set].
  destruct bv; try (by apply wf_dict_set).
  destruct v; try (by apply wf_dict_set).
  apply wf_dict_set; [done|]. eapply Hv; [done| |done]. by eapply wf_dict_get.
Qed.

Lemma wf_deep_merge base overlay :
  wf_value (VDict base) -> wf_value (VDict overlay) ->
  wf_value (VDict (deep_merge base overlay)).
Proof. intros. by eapply wf_merge_into. Qed.

(** ** The MCP merge step *)

Lemma append_ne_self s t : t <> EmptyString -> s +:+ t <> s.
Proof.
  intros Ht. induction s as [|c s IH]; simpl; [done|].
  intros [= H]. by apply IH.
Qed.

Lemma bak_ne path : path +:+ ".bak" <> path.
Proof. by apply append_ne_self. Qed.

Lemma backup_files w path :
  forall q, q <> path +:+ ".bak" -> files (_backup w path).1 !! q = files w !! q.
Proof.
  intros q Hq. unfold _backup. destruct (files w !! path); [|done].
  simpl. by rewrite lookup_insert_ne.
Qed.

Lemma read_json_agree w w' path :
  files w' !! path = files w !! path -> _read_json w' path = _read_json w path.
Proof. unfold _read_json. by intros ->. Qed.

Lemma or_empty_mapping d key :
  absent_or_mapping (dict_get key d) ->
  exists m, or_empty (dict_get key d) = VDict m /\
            default (VDict []) (dict_get key d) = VDict m.
Proof.
  destruct (dict_get key d) as [[| | | | |m]|]; simpl; try done.
  - intros _. exists m. by destruct m.
  - intros _. by exists [].
Qed.

Lemma merged_document_mappings e n es ns :
  default (VDict []) (dict_get "mcpServers" e) = VDict es ->
  default (VDict []) (dict_get "mcpServers" n) = VDict ns ->
  merged_document (VDict e) (VDict n)
  = Ok (VDict (dict_set "mcpServers" (VDict (deep_merge es ns)) e)).
Proof. unfold merged_document. simpl. by intros -> ->. Qed.

(** C2, as amended.  For an existing client-config document [E] and a
    source MCP document [N] that are mappings whose [mcpServers], where
    present, is a mapping, the MCP merge step writes the shallow copy of [E] in which
    [mcpServers] is [merge(E.mcpServers or {}, N.mcpServers or {})]: every
    other top-level key of [E] is there with its value unchanged, and no
    key of [E] is lost. *)
Theorem mcp_merge_keeps_other_keys (w : store) (mcp_src claude_json_path : string)
    (e n : dict) :
  _read_json w mcp_src = Ok (VDict n) ->
  _read_json w claude_json_path = Ok (VDict e) ->
  absent_or_mapping (dict_get "mcpServers" e) ->
  absent_or_mapping (dict_get "mcpServers" n) ->
  exists es ns w1 bak_path,
    or_empty (dict_get "mcpServers" e) = VDict es /\
    or_empty (dict_get "mcpServers" n) = VDict ns /\
    _deep_merge (VDict es) (VDict ns) = Ok (VDict (deep_merge es ns)) /\
    merge_and_write w mcp_src claude_json_path = Ok (w1, bak_path) /\
    files w1 !! claude_json_path
      = Some (json_dumps (VDict (dict_set "mcpServers" (VDict (deep_merge es ns)) e))
              +:+ nl) /\
    _read_json w1 claude_json_path
      = Ok (VDict (dict_set "mcpServers" (VDict (deep_merge es ns)) e)) /\
    (forall key, key <> "mcpServers" ->
       dict_get key (dict_set "mcpServers" (VDict (deep_merge es ns)) e)
       = dict_get key e) /\
    (forall key, key ∈ keys e ->
       key ∈ keys (dict_set "mcpServers" (VDict (deep_merge es ns)) e)).
Proof.
  intros Hn He Hes Hns.
  destruct (or_empty_mapping e _ Hes) as (es & Hoe & Hde).
  destruct (or_empty_mapping n _ Hns) as (ns & Hon & Hdn).
  pose proof (read_json_wf _ _ _ Hn) as Hwn.
  pose proof (read_json_wf _ _ _ He) as Hwe.
  assert (Hwes : wf_value (VDict es)).
  { rewrite <- Hde. by apply wf_default_dict. }
  assert (Hwns : wf_value (VDict ns)).
  { rewrite <- Hdn. by apply wf_default_dict. }
  set (written := VDict (dict_set "mcpServers" (VDict (deep_merge es ns)) e)).
  assert (Hww : wf_value written).
  { apply wf_dict_set; [done|]. by apply wf_deep_merge. }
  unfold merge_and_write.
  rewrite (read_json_agree w (echo w _) mcp_src) by done. rewrite Hn. simpl.
  destruct (_backup _ claude_json_path) as [wb bak_path] eqn:Hb.
  assert (Hrb : _read_json wb claude_json_path = Ok (VDict e)).
  { rewrite <- He. apply read_json_agree.
    change wb with ((wb, bak_path).1). rewrite <- Hb.
    rewrite backup_files; [done|]. intros H. by apply (bak_ne claude_json_path). }
  rewrite Hrb. simpl. rewrite (merged_document_mappings e n es ns) by done.
  simpl. exists es, ns. eexists _, bak_path. split_and!; try done.
  - simpl. by rewrite lookup_insert_eq.
  - etrans; [|exact (read_write_json wb claude_json_path written Hww)].
    by apply read_json_agree.
  - intros key Hne. by apply dict_get_set_ne.
  - intros key Hin. rewrite keys_dict_set.
    destruct (dict_get "mcpServers" e); [done|]. apply elem_of_app. by left.
Qed.

Lemma mcp_merge_keeps_other_keys_witness :
  exists w1 bak_path,
    merge_and_write (demo_store demo_existing)
      "repo/mcp-configs/mcp-servers.json" "claude.json" = Ok (w1, bak_path) /\
    _read_json w1 "claude.json"
    = Ok (VDict
            [("topLevel", VStr "kept");
             ("mcpServers",
              VDict [("custom", VDict [("command", VStr "my-server")]);
                     ("github",
                      VDict [("command", VStr "npx");
                             ("env", VDict [("GITHUB_PERSONAL_ACCESS_TOKEN",
                                             VStr "YOUR_GITHUB_PAT_HERE")])]);
                     ("filesystem",
                      VDict [("command", VStr "npx");
                             ("args", VList [VStr "-y"; VStr "@mcp/server-filesystem";
                                             VStr "YOUR_FILESYSTEM_PATH_HERE"])])])]).
Proof.
  destruct (mcp_merge_keeps_other_keys (demo_store demo_existing)
              "repo/mcp-configs/mcp-servers.json" "claude.json"
              demo_existing demo_mcp)
    as (es & ns & w1 & bak_path & Hes & Hns & _ & Hrun & _ & Hread & _).
  - vm_compute. reflexivity.
  - vm_compute. reflexivity.
  - reflexivity.
  - reflexivity.
  - exists w1, bak_path. split; [exact Hrun|]. rewrite Hread.
    injection Hes as <-. injection Hns as <-. reflexivity.
Defined.
(** C2, counterexample.  With [mcpServers] set to [null] in the existing
    document, [E.mcpServers or {}] is the empty mapping and the claim's
    formula names a document to write; the code takes
    [existing.get("mcpServers", {})], which is [None] there, and
    [_deep_merge] raises TypeError on it: nothing is merged and nothing is
    written.  With [null] in the source document it raises
    AttributeError. *)
Lemma null_servers_not_merged :
  _read_json (demo_store null_servers) "claude.json" = Ok (VDict null_servers) /\
  or_empty (dict_get "mcpServers" null_servers) = VDict [] /\
  merge_and_write (demo_store null_servers)
    "repo/mcp-configs/mcp-servers.json" "claude.json" = Raise TypeError /\
  _merge_mcp_servers demo_env (demo_store null_servers) "repo" "claude.json" None true
  = Raise TypeError /\
  merge_and_write
    (_write_json (demo_store demo_existing) "repo/mcp-configs/mcp-servers.json"
       (VDict null_servers))
    "repo/mcp-configs/mcp-servers.json" "claude.json" = Raise AttributeError.
Proof. split_and!; vm_compute; reflexivity. Qed.

(** ** Filesystem-path reconciliation *)

Lemma opt_truthy_Some p : p <> EmptyString -> opt_truthy (Some p) = true.
Proof. simpl. intros Hp. by destruct (String.eqb_spec p EmptyString). Qed.

Lemma handle_with_flag E w claude_json_path bak_path fs_path no_prompt existing :
  fs_path <> EmptyString ->
  existing_fs_path w bak_path = Ok existing ->
  _handle_filesystem_path E w claude_json_path bak_path (Some fs_path) no_prompt
  = use_given_path E w claude_json_path fs_path.
Proof.
  intros Hp Hex. unfold _handle_filesystem_path. rewrite Hex. simpl.
  by destruct (String.eqb_spec fs_path EmptyString).
Qed.

Lemma read_json_echo w msg path : _read_json (echo w msg) path = _read_json w path.
Proof. reflexivity. Qed.




Lemma existing_fs_path_text w bak t :
  files w !! bak = Some t ->
  existing_fs_path w (Some bak) = prior_fs_path t.
Proof.
  intros Hf. unfold existing_fs_path, is_file, prior_fs_path, _read_json.
  by rewrite Hf.
Qed.

Lemma handle_restore E w claude_json_path bak_path fs_path no_prompt p doc l :
  opt_truthy fs_path = false ->
  existing_fs_path w bak_path = Ok (VStr p) ->
  p <> EmptyString -> p <> FS_PATH_PLACEHOLDER -> is_dir E p = true ->
  _read_json w claude_json_path = Ok doc ->
  fs_args doc = Ok (VList l) ->
  exists doc',
    _handle_filesystem_path E w claude_json_path bak_path fs_path no_prompt
    = Ok (echo (_write_json w claude_json_path doc')
            ("  Filesystem MCP already configured: " +:+ p)) /\
    _read_json (_write_json w claude_json_path doc') claude_json_path = Ok doc' /\
    lookup_fs_args doc' = Some (VList (new_args l p)) /\
    fs_args doc' = Ok (VList (new_args l p)).
Proof.
  intros Hfs Hex Hp Hph Hd Hread Hargs.
  unfold _handle_filesystem_path. rewrite Hex. cbn [mbind result_bind].
  rewrite Hfs. simpl.
  destruct (String.eqb_spec p EmptyString); [done|].
  destruct (String.eqb_spec p FS_PATH_PLACEHOLDER); [done|]. simpl.
  rewrite Hd.
  destruct (set_filesystem_path_doc w claude_json_path p doc l Hread Hargs)
    as (doc' & -> & Hr & Hl & Ha).
  by exists doc'.
Qed.

Lemma merge_and_write_backup w mcp_src claude_json_path w1 bak_path t :
  merge_and_write w mcp_src claude_json_path = Ok (w1, bak_path) ->
  files w !! claude_json_path = Some t ->
  bak_path = Some (claude_json_path +:+ ".bak") /\
  files w1 !! (claude_json_path +:+ ".bak") = Some t.
Proof.
  unfold merge_and_write. intros H Hf.
  destruct (_read_json _ mcp_src) as [mcp_data|]; [|done]. simpl in H.
  unfold _backup in H. simpl in H. rewrite Hf in H.
  destruct (_read_json _ claude_json_path) as [existing|]; [|done]. simpl in H.
  destruct (merged_document existing mcp_data) as [merged|]; [|done]. simpl in H.
  injection H as <- <-. split; [done|]. simpl.
  rewrite lookup_insert_ne by (intros ?; by eapply bak_ne).
  by rewrite lookup_insert_eq.
Qed.

Lemma auto_fill_files E w claude_json_path w' :
  _auto_fill_gh_token E w claude_json_path = Ok w' ->
  forall q, q <> claude_json_path -> files w' !! q = files w !! q.
Proof.
  unfold _auto_fill_gh_token. intros H q Hq.
  destruct (files w !! claude_json_path); [|done].
  destruct (negb _); [by injection H as <-|].
  destruct (_gh_auth_token E); injection H as <-; simpl; [|done].
  by rewrite lookup_insert_ne.
Qed.


(** C3, as amended.  In a run of the MCP merge with no filesystem-path flag
    that reaches the reconciliation step with a client-config document:
    when the content the file had before the merge (the backup) ends its
    [mcpServers.filesystem.args] in a non-empty string that is not the
    placeholder and names an existing directory, the run ends with that
    string as the last [args] element of the final document. *)
Theorem mcp_merge_restores_prior_path (E : env) (w : store)
    (src claude_json_path : string) (fs_path : option string) (no_prompt : bool)
    (t : string) (p : string) (w1 w2 : store) (bak_path : option string)
    (doc : value) (l : list value) :
  opt_truthy fs_path = false ->
  files w !! claude_json_path = Some t ->
  prior_fs_path t = Ok (VStr p) ->
  p <> EmptyString ->
  p <> FS_PATH_PLACEHOLDER ->
  is_dir E p = true ->
  is_file w (joinpath (joinpath src "mcp-configs") "mcp-servers.json") = true ->
  merge_and_write w (joinpath (joinpath src "mcp-configs") "mcp-servers.json")
    claude_json_path = Ok (w1, bak_path) ->
  _auto_fill_gh_token E w1 claude_json_path = Ok w2 ->
  _read_json w2 claude_json_path = Ok doc ->
  fs_args doc = Ok (VList l) ->
  exists w' doc',
    _merge_mcp_servers E w src claude_json_path fs_path no_prompt = Ok w' /\
    _read_json w' claude_json_path = Ok doc' /\
    lookup_fs_args doc' = Some (VList (new_args l p)) /\
    (args ← fs_args doc'; py_getitem_last args) = Ok (VStr p).
Proof.
  intros Hfs Hf Hprior Hp Hph Hd Hsrc Hmw Haf Hread Hargs.
  destruct (merge_and_write_backup _ _ _ _ _ _ Hmw Hf) as [-> Hbak].
  assert (Hex : existing_fs_path w2 (Some (claude_json_path +:+ ".bak"))
                = Ok (VStr p)).
  { rewrite (existing_fs_path_text _ _ t); [done|].
    rewrite (auto_fill_files _ _ _ _ Haf); [done|]. apply bak_ne. }
  destruct (handle_restore E w2 claude_json_path _ fs_path no_prompt p doc l
              Hfs Hex Hp Hph Hd Hread Hargs) as (doc' & Hrun & Hr & Hl & Ha).
  eexists _, doc'. unfold _merge_mcp_servers. rewrite Hsrc. simpl.
  rewrite Hmw. simpl. rewrite Haf. simpl. split_and!; [exact Hrun|exact Hr|exact Hl|].
  rewrite Ha. simpl. by rewrite last_new_args.
Qed.

Lemma mcp_merge_restores_prior_path_witness :
  exists w' doc',
    _merge_mcp_servers demo_env (demo_store (demo_configured "/old/code"))
      "repo" "claude.json" None true = Ok w' /\
    _read_json w' "claude.json" = Ok doc' /\
    lookup_fs_args doc'
    = Some (VList [VStr "-y"; VStr "@mcp/server-filesystem"; VStr "/old/code"]).
Proof.
  destruct (merge_and_write (demo_store (demo_configured "/old/code"))
              "repo/mcp-configs/mcp-servers.json" "claude.json")
    as [[w1 bak_path]|] eqn:Hmw; [|vm_compute in Hmw; discriminate].
  destruct (_auto_fill_gh_token demo_env w1 "claude.json") as [w2|] eqn:Haf;
    [|vm_compute in Hmw; injection Hmw as <- <-; vm_compute in Haf; discriminate].
  destruct (mcp_merge_restores_prior_path demo_env
              (demo_store (demo_configured "/old/code")) "repo" "claude.json"
              None true
              (json_dumps (VDict (demo_configured "/old/code")) +:+ nl)
              "/old/code" w1 w2 bak_path
              (VDict
                 [("mcpServers",
                   VDict [("filesystem",
                           VDict [("command", VStr "npx");
                                  ("args", VList [VStr "-y"; VStr "@mcp/server-filesystem";
                                                  VStr "YOUR_FILESYSTEM_PATH_HERE"])]);
                          ("github",
                           VDict [("command", VStr "npx");
                                  ("env", VDict [("GITHUB_PERSONAL_ACCESS_TOKEN",
                                                  VStr "ghp_test123")])])])])
              [VStr "-y"; VStr "@mcp/server-filesystem";
               VStr "YOUR_FILESYSTEM_PATH_HERE"])
    as (w' & doc' & Hrun & Hread & Hl & _);
    try (vm_compute; reflexivity); try discriminate; try exact Hmw; try exact Haf.
  - vm_compute in Hmw. injection Hmw as <- <-. vm_compute in Haf.
    injection Haf as <-. vm_compute. reflexivity.
  - exists w', doc'. split_and!; [exact Hrun|exact Hread|exact Hl].
Defined.

(** C3, as stated, fails on an empty prior path: the backup's last [args]
    element is the empty string, which is not the placeholder and names an
    existing directory, and the run ends with the placeholder of the new
    source document as the last [args] element. *)
Lemma empty_prior_path_not_restored :
  prior_fs_path (json_dumps (VDict (demo_configured EmptyString)) +:+ nl)
    = Ok (VStr EmptyString) /\
  is_placeholder (VStr EmptyString) = false /\
  is_dir cwd_env EmptyString = true /\
  exists w' doc',
    _merge_mcp_servers cwd_env (demo_store (demo_configured EmptyString))
      "repo" "claude.json" None true = Ok w' /\
    _read_json w' "claude.json" = Ok doc' /\
    (args ← fs_args doc'; py_getitem_last args) = Ok (VStr FS_PATH_PLACEHOLDER) /\
    VStr FS_PATH_PLACEHOLDER <> VStr EmptyString.
Proof.
  split_and!; try (vm_compute; reflexivity).
  destruct (_merge_mcp_servers cwd_env (demo_store (demo_configured EmptyString))
              "repo" "claude.json" None true) as [w'|] eqn:Hrun;
    [|vm_compute in Hrun; discriminate].
  destruct (_read_json w' "claude.json") as [doc'|] eqn:Hread;
    [|vm_compute in Hrun; injection Hrun as <-; vm_compute in Hread; discriminate].
  exists w', doc'. split_and!; try done.
  vm_compute in Hrun. injection Hrun as <-. vm_compute in Hread.
  injection Hread as <-. vm_compute. reflexivity.
Qed.
(** ** Directory linker *)

Lemma link_one_frame E src dest name w w' :
  link_one E src dest name w = Ok w' ->
  forall k, k <> name -> k <> bak_name name -> entries w' !! k = entries w !! k.
Proof.
  unfold link_one, rmtree, rename, symlink_to, bak_name. intros H k Hk Hb.
  repeat (match type of H with
          | context [if ?x then _ else _] => destruct x eqn:?
          | context [match ?x with _ => _ end] => destruct x eqn:?
          end; simpl in H; try done);
    simplify_eq; simpl in *; by simplify_map_eq.
Qed.

Lemma link_one_linked E src dest name w w' :
  name <> bak_name name ->
  link_one E src dest name w = Ok w' ->
  linked E src name w w'.
Proof.
  unfold link_one, rmtree, rename, symlink_to, linked, bak_name. intros Hne H.
  destruct (is_dir E (joinpath src name)) eqn:Hd; simpl in H;
    [|by simplify_eq].
  repeat (match type of H with
          | context [if ?x then _ else _] => destruct x eqn:?
          | context [match ?x with _ => _ end] => destruct x eqn:?
          end; simpl in H; try done);
    simplify_eq; simpl in *; simplify_map_eq; try done.
Qed.


Lemma linked_proper E src name w0 w w0' w' :
  entries w0 !! name = entries w !! name ->
  entries w0 !! bak_name name = entries w !! bak_name name ->
  entries w0' !! name = entries w' !! name ->
  entries w0' !! bak_name name = entries w' !! bak_name name ->
  linked E src name w w' -> linked E src name w0 w0'.
Proof. unfold linked. by intros -> -> -> ->. Qed.


Lemma apart_cons name names :
  apart (name :: names) ->
  name <> bak_name name /\
  (forall m, m ∈ names ->
     m <> name /\ m <> bak_name name /\
     bak_name m <> name /\ bak_name m <> bak_name name) /\
  apart names.
Proof.
  unfold apart. simpl. intros [Hn Hnd]%NoDup_cons.
  apply not_elem_of_app in Hn as [Hn1 Hn2].
  apply not_elem_of_cons in Hn2 as [Hn2 Hn3].
  apply NoDup_app in Hnd as (Hnd1 & Hdis & Hnd2).
  apply NoDup_cons in Hnd2 as [Hb Hnd2].
  split_and!; [done| |].
  - intros m Hm. split_and!.
    + by intros ->.
    + intros ->. apply (Hdis _ Hm). apply list_elem_of_here.
    + intros Heq. apply Hn3. rewrite <- Heq. by apply list_elem_of_fmap_2.
    + intros Heq. apply (Hdis m Hm). apply list_elem_of_further.
      destruct (decide (m = name)) as [->|Hne]; [done|].
      exfalso. apply Hb. rewrite <- Heq. by apply list_elem_of_fmap_2.
  - apply NoDup_app. split_and!; [done| |done].
    intros x Hx Hx'. apply (Hdis x Hx). by apply list_elem_of_further.
Qed.

Lemma link_all_linked E src dest names : forall w w',
  apart names ->
  link_all E src dest names w = Ok w' ->
  (forall k, k ∉ names -> k ∉ map bak_name names ->
     entries w' !! k = entries w !! k) /\
  (forall name, name ∈ names -> linked E src name w w').
Proof.
  induction names as [|n ns IH]; intros w w' Hap H; simpl in H.
  - injection H as <-. split; [done|]. intros name Hin. by apply elem_of_nil in Hin.
  - apply apart_cons in Hap as (Hnb & Hothers & Hap).
    destruct (link_one E src dest n w) as [w1|] eqn:Hone; simpl in H; [|done].
    destruct (IH w1 w' Hap H) as [Hframe Hlinked].
    pose proof (link_one_frame _ _ _ _ _ _ Hone) as Hframe1.
    split.
    + intros k Hk Hkb. apply not_elem_of_cons in Hk as [Hk1 Hk2].
      simpl in Hkb. apply not_elem_of_cons in Hkb as [Hkb1 Hkb2].
      rewrite Hframe by done. by apply Hframe1.
    + intros name [->|Hin]%elem_of_cons.
      * assert (Hn1 : n ∉ ns) by (intros Hin; by destruct (Hothers n Hin) as (? & _)).
        assert (Hn2 : n ∉ map bak_name ns).
        { intros (m & Heq & Hm)%list_elem_of_fmap.
          destruct (Hothers m Hm) as (_ & _ & ? & _). congruence. }
        assert (Hb1 : bak_name n ∉ ns).
        { intros Hin. destruct (Hothers _ Hin) as (_ & ? & _). congruence. }
        assert (Hb2 : bak_name n ∉ map bak_name ns).
        { intros (m & Heq & Hm)%list_elem_of_fmap.
          destruct (Hothers m Hm) as (_ & _ & _ & ?). congruence. }
        eapply (linked_proper _ _ _ w w w' w1); try done.
        -- by rewrite Hframe.
        -- by rewrite Hframe.
        -- by eapply link_one_linked.
      * destruct (Hothers name Hin) as (H1 & H2 & H3 & H4).
        eapply (linked_proper _ _ _ w w1 w' w'); try done.
        -- symmetry. by apply Hframe1.
        -- symmetry. by apply Hframe1.
        -- by apply Hlinked.
Qed.


Lemma apart_LINK_DIRS : apart LINK_DIRS.
Proof. apply (bool_decide_unpack _). vm_compute. reflexivity. Qed.

Lemma bak_name_LINK_DIRS name :
  name ∈ LINK_DIRS -> bak_name name = name +:+ ".bak".
Proof.
  unfold LINK_DIRS. rewrite !elem_of_cons, elem_of_nil.
  intros [->|[->|[->|[->|[->|[->|[]]]]]]]; reflexivity.
Qed.




(** C5, at the failing input.  With the source directory given by the
    relative path [repo], the linker makes [dest/agents] a symlink that
    holds the text [repo/agents].  The system reads that text from [dest]:
    the link leads to [dest/repo/agents], which is not the source
    subdirectory and is no directory at all. *)
Lemma relative_source_link_dangles :
  is_dir relative_env (joinpath "repo" "agents") = true /\
  exists w',
    _link_directories relative_env "repo" "dest" {| entries := ∅; printed := [] |}
      = Ok w' /\
    entries w' !! "agents" = Some (NLink "repo/agents") /\
    leads_to "dest" "repo/agents" = "dest/repo/agents" /\
    is_dir relative_env "dest/repo/agents" = false.
Proof.
  split; [reflexivity|]. eexists. split_and!; vm_compute; reflexivity.
Qed.

(** * Further properties of the code *)

(** ** The merge as an operation: key order, repetition *)

Lemma dict_set_same key v : forall d,
  dict_get key d = Some v -> dict_set key v d = d.
Proof.
  induction d as [|[k x] d IH]; simpl; [done|].
  destruct (String.eqb_spec key k) as [->|Hne]; intros H.
  - by injection H as ->.
  - by rewrite IH.
Qed.

Lemma dict_get_elem key v : forall d,
  NoDup (keys d) -> (key, v) ∈ d -> dict_get key d = Some v.
Proof.
  induction d as [|[k x] d IH]; simpl; intros Hnd Hin.
  - by apply elem_of_nil in Hin.
  - apply NoDup_cons in Hnd as [Hk Hnd].
    apply elem_of_cons in Hin as [Heq|Hin].
    + injection Heq as -> ->. by rewrite String.eqb_refl.
    + destruct (String.eqb_spec key k) as [->|Hne]; [|by apply IH].
      destruct Hk. apply list_elem_of_fmap. by exists (k, v).
Qed.

Lemma keys_merge_step base key val :
  keys (merge_step base key val) =
    match dict_get key base with Some _ => keys base | None => keys base ++ [key] end.
Proof.
  unfold merge_step.
  destruct (dict_get key base) as [[]|] eqn:Hg; destruct val;
    rewrite keys_dict_set, Hg; reflexivity.
Qed.

Lemma filter_agree {A} (P Q : A -> Prop)
    `{!forall x, Decision (P x)} `{!forall x, Decision (Q x)} (l : list A) :
  (forall x, x ∈ l -> P x <-> Q x) -> filter P l = filter Q l.
Proof.
  induction l as [|x l IH]; intros Hl; [done|].
  rewrite !filter_cons.
  assert (P x <-> Q x) as Hx by (apply Hl; left).
  rewrite IH by (intros y Hy; apply Hl; by right).
  destruct (decide (P x)), (decide (Q x)); tauto.
Qed.

Lemma keys_deep_merge overlay : forall base,
  NoDup (keys overlay) ->
  keys (deep_merge base overlay)
  = keys base ++ filter (fun k => k ∉ keys base) (keys overlay).
Proof.
  induction overlay as [|[k v] rest IH]; intros base Hnd.
  - by rewrite deep_merge_nil, app_nil_r.
  - simpl in Hnd. apply NoDup_cons in Hnd as [Hk Hnd].
    rewrite deep_merge_cons, IH, keys_merge_step by done.
    change (keys ((k, v) :: rest)) with (k :: keys rest).
    destruct (dict_get k base) eqn:Hg.
    + rewrite filter_cons_False; [done|].
      intros Hn. apply Hn. by eapply dict_get_Some_keys.
    + rewrite filter_cons_True.
      2:{ intros Hin. apply dict_get_is_Some in Hin as [? ?]. congruence. }
      rewrite <- app_assoc. simpl. do 2 f_equal.
      apply filter_agree. intros x Hx.
      rewrite not_elem_of_app, list_elem_of_singleton.
      split; [tauto|]. intros Hb. split; [done|]. by intros ->.
Qed.

Lemma deep_merge_fixed rest : forall r,
  (forall k v, (k, v) ∈ rest -> merge_step r k v = r) ->
  deep_merge r rest = r.
Proof.
  induction rest as [|[k v] rest IH]; intros r H; [done|].
  rewrite deep_merge_cons, H by left. apply IH.
  intros k' v' Hin. apply H. by right.
Qed.

Lemma merge_step_fixed r key val x :
  dict_get key r = Some x ->
  match x, val with
  | VDict b, VDict o => VDict (deep_merge b o)
  | _, _ => val
  end = x ->
  merge_step r key val = r.
Proof.
  intros Hg Hx. unfold merge_step. rewrite Hg.
  destruct x, val; simpl in Hx; try discriminate;
    try rewrite Hx; by apply dict_set_same.
Qed.

Lemma deep_merge_absorbs overlay :
  forall o, overlay = VDict o -> wf_value overlay ->
  (forall base, deep_merge (deep_merge base o) o = deep_merge base o) /\
  deep_merge o o = o.
Proof.
  induction overlay as [| | | | |items IH] using value_ind; intros o Ho Hwf; try done.
  injection Ho as <-. apply wf_value_dict in Hwf as [Hnd Hwf].
  assert (Hsub : forall k v, (k, v) ∈ items ->
            dict_get k items = Some v /\
            forall o', v = VDict o' ->
              (forall base, deep_merge (deep_merge base o') o' = deep_merge base o') /\
              deep_merge o' o' = o').
  { intros k v Hin. split; [by apply dict_get_elem|].
    intros o' ->. rewrite Forall_forall in IH, Hwf.
    apply (IH _ Hin); [done|]. apply (Hwf _ Hin). }
  split.
  - intros base. apply deep_merge_fixed. intros k v Hin.
    destruct (Hsub k v Hin) as [Hg Hrec].
    pose proof (deep_merge_get items base k Hnd) as Hr. rewrite Hg in Hr.
    destruct (dict_get k base) as [x|] eqn:Hb.
    + destruct x; try (eapply merge_step_fixed; [exact Hr|];
        destruct v; try done; f_equal; by apply (Hrec _ eq_refl)).
      destruct v; try (by eapply merge_step_fixed; [exact Hr|]).
      eapply merge_step_fixed; [exact Hr|]. f_equal. by apply (Hrec _ eq_refl).
    + eapply merge_step_fixed; [exact Hr|].
      destruct v; try done. f_equal. by apply (Hrec _ eq_refl).
  - apply deep_merge_fixed. intros k v Hin.
    destruct (Hsub k v Hin) as [Hg Hrec].
    eapply merge_step_fixed; [exact Hg|].
    destruct v; try done. f_equal. by apply (Hrec _ eq_refl).
Qed.

(** X1.  The merge keeps the layout of [base]: the keys of the result are
    the keys of [base] in their order, followed by the keys of [overlay]
    that [base] does not have, in the order of [overlay]. *)
Theorem deep_merge_key_order (base overlay : dict) :
  NoDup (keys overlay) ->
  exists merged,
    _deep_merge (VDict base) (VDict overlay) = Ok (VDict merged) /\
    keys merged = keys base ++ filter (fun k => k ∉ keys base) (keys overlay).
Proof.
  intros Hnd. exists (deep_merge base overlay). split; [done|].
  by apply keys_deep_merge.
Qed.

Lemma deep_merge_key_order_witness :
  exists merged,
    _deep_merge (VDict [("b", VInt 1); ("a", VInt 2)])
                (VDict [("z", VInt 3); ("a", VInt 4); ("c", VInt 5)])
      = Ok (VDict merged) /\
    keys merged = ["b"; "a"; "z"; "c"].
Proof.
  destruct (deep_merge_key_order [("b", VInt 1); ("a", VInt 2)]
              [("z", VInt 3); ("a", VInt 4); ("c", VInt 5)])
    as (m & H1 & H2).
  - apply (bool_decide_unpack _). vm_compute. reflexivity.
  - exists m. split; [exact H1|]. rewrite H2. vm_compute. reflexivity.
Defined.

(** X2.  Merging the same overlay once more changes nothing:
    [merge(merge(A, B), B) == merge(A, B)], and [merge(B, B) == B]. *)
Theorem deep_merge_twice (base overlay : dict) :
  wf_value (VDict overlay) ->
  (merged ← _deep_merge (VDict base) (VDict overlay);
   _deep_merge merged (VDict overlay))
  = _deep_merge (VDict base) (VDict overlay) /\
  _deep_merge (VDict overlay) (VDict overlay) = Ok (VDict overlay).
Proof.
  intros Hwf.
  destruct (deep_merge_absorbs (VDict overlay) overlay eq_refl Hwf) as [H1 H2].
  split.
  - unfold _deep_merge, mbind, result_bind. by rewrite H1.
  - unfold _deep_merge. by rewrite H2.
Qed.

Lemma deep_merge_twice_witness :
  _deep_merge
    (VDict [("hooks", VDict [("PreToolUse", VList [VInt 3]); ("Stop", VList [VInt 2]);
                             ("New", VList [VInt 4])])])
    (VDict [("hooks", VDict [("PreToolUse", VList [VInt 3]); ("New", VList [VInt 4])])])
  = _deep_merge
      (VDict [("hooks", VDict [("PreToolUse", VList [VInt 1]); ("Stop", VList [VInt 2])])])
      (VDict [("hooks", VDict [("PreToolUse", VList [VInt 3]); ("New", VList [VInt 4])])]).
Proof.
  assert (Hwf : wf_value
    (VDict [("hooks", VDict [("PreToolUse", VList [VInt 3]); ("New", VList [VInt 4])])])).
  { apply wf_value_dict. split; [apply NoDup_singleton|].
    repeat constructor; simpl; try apply NoDup_nil_2.
    - intros Hin. apply list_elem_of_singleton in Hin. done.
    - intros Hin. by apply elem_of_nil in Hin. }
  rewrite <- (proj1 (deep_merge_twice
    [("hooks", VDict [("PreToolUse", VList [VInt 1]); ("Stop", VList [VInt 2])])]
    _ Hwf)).
  reflexivity.
Defined.

(** ** Replacing a token *)

Lemma is_prefix_app_inv old : forall s r,
  is_prefix old (s ++ r) = true -> is_prefix old s = true \/ is_prefix s old = true.
Proof.
  induction old as [|a old IH]; intros s r H; [by left|].
  destruct s as [|x s]; [by right|].
  simpl in *. apply andb_true_iff in H as [Hax H].
  apply Ascii.eqb_eq in Hax as ->. rewrite Ascii.eqb_refl. simpl.
  by apply IH in H.
Qed.

Lemma contains_false_prefix old t :
  contains old t = false -> is_prefix old t = false.
Proof. destruct t; simpl; intros H; by apply orb_false_iff in H as [? _]. Qed.

Lemma contains_false_tail old c t :
  contains old (c :: t) = false -> contains old t = false.
Proof.
  intros H. change (is_prefix old (c :: t) || contains old t = false) in H.
  by apply orb_false_iff in H as [_ ?].
Qed.

Lemma contains_cons old c t :
  contains old (c :: t) = is_prefix old (c :: t) || contains old t.
Proof. reflexivity. Qed.

Lemma replace_absent old new : forall t,
  contains old t = false -> replace_from old new 0 t = t.
Proof.
  induction t as [|c t IH]; intros H; [done|].
  pose proof (contains_false_prefix _ _ H) as Hp.
  apply contains_false_tail in H.
  cbn [replace_from]. rewrite Hp. by rewrite IH.
Qed.

Lemma replace_absent_text old new t :
  contains old t = false -> replace old new t = t.
Proof. apply replace_absent. Qed.

Lemma head_not_in_old old new :
  head_differs new old = true ->
  exists b new', new = b :: new' /\ forall a, a ∈ old -> a <> b.
Proof.
  intros Hhead.
  destruct new as [|b new']; [done|]. exists b, new'. split; [done|].
  intros a Ha ->. simpl in Hhead. apply negb_true_iff in Hhead.
  assert (existsb (Ascii.eqb b) old = true); [|congruence].
  apply existsb_exists. exists b. split; [by apply list_elem_of_In|].
  apply Ascii.eqb_refl.
Qed.

(** A start made of characters of [old] is copied as it stands. *)
Lemma is_prefix_replaced old new p : forall t,
  head_differs new old = true ->
  (forall a, a ∈ p -> a ∈ old) ->
  is_prefix p (replace_from old new 0 t) = true -> is_prefix p t = true.
Proof.
  intros t Hhead. revert t.
  destruct (head_not_in_old _ _ Hhead) as (b & new' & Hnew & Hb).
  induction p as [|a p IH]; intros t Hp H; [done|].
  destruct t as [|c t]; [done|].
  cbn [replace_from] in H.
  destruct (is_prefix old (c :: t)) eqn:Hm.
  - rewrite Hnew in H. simpl in H. apply andb_true_iff in H as [Hab _].
    apply Ascii.eqb_eq in Hab. exfalso. apply (Hb a); [|done].
    apply Hp. left.
  - simpl in *. apply andb_true_iff in H as [-> H]. simpl.
    apply IH; [|done]. intros x Hx. apply Hp. by right.
Qed.

Lemma no_occurrence_at_start old new t :
  old <> [] ->
  head_differs new old = true ->
  is_prefix old (replace_from old new 0 t) = false.
Proof.
  intros Hold Hhead.
  destruct (is_prefix old (replace_from old new 0 t)) eqn:H; [|done].
  exfalso.
  pose proof (is_prefix_replaced old new old t Hhead (fun a Ha => Ha) H) as Ht.
  destruct (head_not_in_old _ _ Hhead) as (b & new' & Hnew & Hb).
  destruct t as [|c t].
  - by destruct old.
  - cbn [replace_from] in H. rewrite Ht, Hnew in H.
    destruct old as [|a old']; [done|].
    simpl in H. apply andb_true_iff in H as [Hab _].
    apply Ascii.eqb_eq in Hab. apply (Hb a); [left|done].
Qed.

Lemma no_occurrence_across old : forall s r,
  no_border s old = true -> contains old s = false -> contains old r = false ->
  contains old (s ++ r) = false.
Proof.
  induction s as [|x s IH]; intros r Hb Hs Hr; [done|].
  simpl in Hb. apply andb_true_iff in Hb as [Hb1 Hb2].
  apply negb_true_iff in Hb1.
  change (contains old (x :: (s ++ r)) = false). rewrite contains_cons.
  apply orb_false_iff. split.
  - destruct (is_prefix old (x :: s ++ r)) eqn:H; [|done].
    apply (is_prefix_app_inv old (x :: s) r) in H as [H|H].
    + apply contains_false_prefix in Hs. congruence.
    + simpl in *. congruence.
  - apply IH; [done| |done]. by apply contains_false_tail in Hs.
Qed.

(** No occurrence of [old] is left, nor made, by the replacement. *)
Lemma replace_from_clean old new :
  head_differs new old = true ->
  no_border new old = true ->
  contains old new = false ->
  forall t k, contains old (replace_from old new k t) = false.
Proof.
  intros Hhead Hborder Hin.
  assert (old <> []) as Hold by (intros ->; by destruct new).
  induction t as [|c t IH]; intros k.
  - simpl. by destruct old.
  - destruct k as [|k]; [|apply IH].
    pose proof (no_occurrence_at_start old new (c :: t) Hold Hhead) as Hs.
    cbn [replace_from] in *.
    destruct (is_prefix old (c :: t)).
    + apply no_occurrence_across; [done|done|apply IH].
    + rewrite contains_cons, Hs. apply IH.
Qed.


(** X6.  When the credential helper yields a token that starts with a
    character the placeholder does not have, does not end in a start of the
    placeholder and does not hold it, the client-config text after the
    auto-fill has no occurrence of the placeholder left, and no other file
    is changed. *)
Theorem auto_fill_removes_placeholder (E : env) (w : store)
    (claude_json_path raw_text token : string) :
  files w !! claude_json_path = Some raw_text ->
  _gh_auth_token E = Some token ->
  token_fits token = true ->
  exists w' updated,
    _auto_fill_gh_token E w claude_json_path = Ok w' /\
    files w' !! claude_json_path = Some updated /\
    contains (chars GH_TOKEN_PLACEHOLDER) (chars updated) = false /\
    (forall q, q <> claude_json_path -> files w' !! q = files w !! q).
Proof.
  intros Hf Ht Hfit. unfold _auto_fill_gh_token. rewrite Hf.
  destruct (contains (chars GH_TOKEN_PLACEHOLDER) (chars raw_text)) eqn:Hc; simpl.
  - rewrite Ht. eexists _, _. split; [done|]. simpl.
    split; [apply lookup_insert_eq|]. split.
    + rewrite chars_str. unfold token_fits in Hfit.
      apply andb_true_iff in Hfit as [Hfit H3].
      apply andb_true_iff in Hfit as [H1 H2].
      apply negb_true_iff in H3.
      by apply replace_from_clean.
    + intros q Hq. by apply lookup_insert_ne.
  - exists w, raw_text. done.
Qed.

Lemma auto_fill_removes_placeholder_witness :
  exists w' updated,
    _auto_fill_gh_token demo_env
      {| files := {["claude.json" := "{'t': 'YOUR_GITHUB_PAT_HERE'}"]}; out := [] |}
      "claude.json" = Ok w' /\
    files w' !! "claude.json" = Some updated /\
    contains (chars GH_TOKEN_PLACEHOLDER) (chars updated) = false.
Proof.
  destruct (auto_fill_removes_placeholder demo_env
    {| files := {["claude.json" := "{'t': 'YOUR_GITHUB_PAT_HERE'}"]}; out := [] |}
    "claude.json" "{'t': 'YOUR_GITHUB_PAT_HERE'}" "ghp_test123")
    as (w' & u & H1 & H2 & H3 & _); [reflexivity|reflexivity|reflexivity|].
  exists w', u. auto.
Defined.

(** ** The hooks merge *)

Lemma backup_lookup w path :
  files (_backup w path).1 !! (path +:+ ".bak")
  = match files w !! path with
    | Some t => Some t
    | None => files w !! (path +:+ ".bak")
    end.
Proof.
  unfold _backup. destruct (files w !! path) eqn:Hf; simpl; [|done].
  apply lookup_insert_eq.
Qed.

Lemma backup_keeps w path : files (_backup w path).1 !! path = files w !! path.
Proof. apply backup_files. intros H. symmetry in H. by apply bak_ne in H. Qed.

Lemma merge_hooks_eq w src dest hooks_text :
  files w !! joinpath (joinpath src "hooks") "hooks.json" = Some hooks_text ->
  _merge_hooks w src dest
  = (hooks_data ← json_loads (str (replace (chars PLUGIN_ROOT_PLACEHOLDER) (chars src)
                                    (chars hooks_text)));
     existing ← _read_json w (joinpath dest "settings.json");
     merged ← _deep_merge existing hooks_data;
     Ok (echo (_write_json
                 (_backup (echo w (nl +:+ "=== Merging hooks into settings.json ==="))
                    (joinpath dest "settings.json")).1
                 (joinpath dest "settings.json") merged)
           ("  Merged hooks into: " +:+ joinpath dest "settings.json"))).
Proof.
  intros Hf. unfold _merge_hooks. rewrite Hf. cbn zeta.
  destruct (json_loads _) as [hd|]; [|done].
  unfold mbind at 1 4; cbn [result_bind].
  destruct (_backup _ _) as [w1 b] eqn:Hb.
  assert (Hw1 : w1 = (_backup (echo w (nl +:+ "=== Merging hooks into settings.json ==="))
                        (joinpath dest "settings.json")).1) by by rewrite Hb.
  assert (Hr : _read_json w1 (joinpath dest "settings.json")
               = _read_json w (joinpath dest "settings.json")).
  { apply read_json_agree. rewrite Hw1. apply (backup_keeps (echo w _)). }
  rewrite Hr. by rewrite Hw1.
Qed.

Lemma merge_hooks_run w src dest hooks_text h e :
  files w !! joinpath (joinpath src "hooks") "hooks.json" = Some hooks_text ->
  json_loads (str (replace (chars PLUGIN_ROOT_PLACEHOLDER) (chars src)
                     (chars hooks_text))) = Ok (VDict h) ->
  _read_json w (joinpath dest "settings.json") = Ok (VDict e) ->
  _merge_hooks w src dest
  = Ok (echo (_write_json
                (_backup (echo w (nl +:+ "=== Merging hooks into settings.json ==="))
                   (joinpath dest "settings.json")).1
                (joinpath dest "settings.json") (VDict (deep_merge e h)))
          ("  Merged hooks into: " +:+ joinpath dest "settings.json")).
Proof.
  intros Hf Hj He. rewrite (merge_hooks_eq _ _ _ _ Hf), Hj.
  unfold mbind at 1; cbn [result_bind]. rewrite He. reflexivity.
Qed.

(** X3.  When the source tree has a hooks document whose text, after the
    substitution of the plugin root, parses to a mapping [h], and the
    settings document reads as a mapping [e], the hooks merge returns; the
    settings document then reads as the deep merge of [e] and [h], every
    top-level key that [h] does not have keeps its value, the backup beside
    the settings document holds its former text (none is made when there
    was no settings document), and no other file is changed. *)
Theorem merge_hooks_outcome (w : store) (src dest hooks_text : string) (h e : dict) :
  files w !! joinpath (joinpath src "hooks") "hooks.json" = Some hooks_text ->
  json_loads (str (replace (chars PLUGIN_ROOT_PLACEHOLDER) (chars src)
                     (chars hooks_text))) = Ok (VDict h) ->
  _read_json w (joinpath dest "settings.json") = Ok (VDict e) ->
  exists w',
    _merge_hooks w src dest = Ok w' /\
    _read_json w' (joinpath dest "settings.json") = Ok (VDict (deep_merge e h)) /\
    (forall key, dict_get key h = None ->
       dict_get key (deep_merge e h) = dict_get key e) /\
    files w' !! (joinpath dest "settings.json" +:+ ".bak")
    = match files w !! joinpath dest "settings.json" with
      | Some t => Some t
      | None => files w !! (joinpath dest "settings.json" +:+ ".bak")
      end /\
    (forall q, q <> joinpath dest "settings.json" ->
       q <> joinpath dest "settings.json" +:+ ".bak" ->
       files w' !! q = files w !! q).
Proof.
  intros Hf Hj He. eexists. split; [by eapply merge_hooks_run|].
  assert (Hwf : wf_value (VDict (deep_merge e h))).
  { apply wf_deep_merge; [by eapply read_json_wf|by eapply json_loads_wf]. }
  split_and!.
  - rewrite read_json_echo. by apply read_write_json.
  - intros key Hk. rewrite deep_merge_get, Hk; [done|].
    apply json_loads_wf in Hj. by apply wf_value_dict in Hj as [? _].
  - simpl. rewrite lookup_insert_ne by (intros H; symmetry in H; by apply bak_ne in H).
    apply (backup_lookup (echo w _)).
  - intros q Hq1 Hq2. simpl. rewrite lookup_insert_ne by done.
    by rewrite backup_files.
Qed.

Lemma merge_hooks_outcome_witness :
  exists w',
    _merge_hooks demo_hooks_store "repo" "dest" = Ok w' /\
    _read_json w' "dest/settings.json"
    = Ok (VDict [("customKey", VStr "preserved");
                 ("hooks",
                  VDict [("Stop", VList []);
                         ("PreToolUse",
                          VList [VDict [("matcher", VStr "Bash");
                                        ("command", VStr "repo/scripts/check.sh")]])])]) /\
    files w' !! "dest/settings.json.bak" = files demo_hooks_store !! "dest/settings.json".
Proof.
  destruct (merge_hooks_outcome demo_hooks_store "repo" "dest"
              (json_dumps (VDict demo_hooks) +:+ nl)
              [("hooks",
                VDict [("PreToolUse",
                        VList [VDict [("matcher", VStr "Bash");
                                      ("command", VStr "repo/scripts/check.sh")]])])]
              demo_settings)
    as (w' & H1 & H2 & _ & H4 & _).
  - vm_compute. reflexivity.
  - vm_compute. reflexivity.
  - vm_compute. reflexivity.
  - exists w'. split; [exact H1|]. split.
    + etransitivity; [exact H2|]. vm_compute. reflexivity.
    + etransitivity; [exact H4|]. vm_compute. reflexivity.
Defined.

Lemma blank_contains old t :
  match old with [] => false | a :: _ => negb (py_isspace a) end = true ->
  forallb py_isspace t = true -> contains old t = false.
Proof.
  destruct old as [|a old]; [done|]. intros Ha%negb_true_iff.
  induction t as [|c t IH]; intros Ht; [done|].
  simpl in Ht. apply andb_true_iff in Ht as [Hc Ht].
  rewrite contains_cons, IH by done. rewrite orb_false_r. simpl.
  destruct (Ascii.eqb_spec a c) as [->|]; [congruence|done].
Qed.

(** X4.  The hooks document is not read through the JSON store: a blank
    one is a parse error (JSONDecodeError) and not the empty mapping.  A
    hooks document that is not a mapping makes the merge raise
    AttributeError, a settings document that is not a mapping makes it
    raise TypeError. *)
Theorem merge_hooks_errors (w : store) (src dest hooks_text : string) :
  files w !! joinpath (joinpath src "hooks") "hooks.json" = Some hooks_text ->
  (is_blank hooks_text = true -> _merge_hooks w src dest = Raise JSONDecodeError) /\
  (forall v e,
     json_loads (str (replace (chars PLUGIN_ROOT_PLACEHOLDER) (chars src)
                        (chars hooks_text))) = Ok v ->
     is_mapping v = false ->
     _read_json w (joinpath dest "settings.json") = Ok (VDict e) ->
     _merge_hooks w src dest = Raise AttributeError) /\
  (forall v x,
     json_loads (str (replace (chars PLUGIN_ROOT_PLACEHOLDER) (chars src)
                        (chars hooks_text))) = Ok v ->
     _read_json w (joinpath dest "settings.json") = Ok x ->
     is_mapping x = false ->
     _merge_hooks w src dest = Raise TypeError).
Proof.
  intros Hf. rewrite (merge_hooks_eq _ _ _ _ Hf). split_and!.
  - intros Hb. rewrite replace_absent_text.
    + rewrite str_chars, json_loads_blank by done. reflexivity.
    + apply blank_contains; [reflexivity|]. by rewrite <- is_blank_spec.
  - intros v e -> Hv ->. unfold mbind; cbn [result_bind]. by destruct v.
  - intros v x -> -> Hx. unfold mbind; cbn [result_bind]. by destruct x.
Qed.

Lemma merge_hooks_errors_witness :
  _merge_hooks {| files := {["repo/hooks/hooks.json" := nl]}; out := [] |} "repo" "dest"
  = Raise JSONDecodeError.
Proof.
  apply (merge_hooks_errors
           {| files := {["repo/hooks/hooks.json" := nl]}; out := [] |}
           "repo" "dest" nl); reflexivity.
Defined.

Lemma hooks_path_ne_settings src dest :
  joinpath (joinpath src "hooks") "hooks.json" <> joinpath dest "settings.json".
Proof.
  intros H. apply (f_equal (fun s => rev (chars s))) in H. unfold joinpath in H.
  rewrite !chars_app, !rev_app_distr in H. simpl in H. discriminate.
Qed.

Lemma hooks_path_ne_backup src dest :
  joinpath (joinpath src "hooks") "hooks.json" <> joinpath dest "settings.json" +:+ ".bak".
Proof.
  intros H. apply (f_equal (fun s => rev (chars s))) in H. unfold joinpath in H.
  rewrite !chars_app, !rev_app_distr in H. simpl in H. discriminate.
Qed.

(** X5.  A second run of the hooks merge, right after a first one that
    returned, returns too and leaves the settings document as the first run
    wrote it. *)
Theorem merge_hooks_twice (w w1 : store) (src dest : string) :
  _merge_hooks w src dest = Ok w1 ->
  exists w2,
    _merge_hooks w1 src dest = Ok w2 /\
    files w2 !! joinpath dest "settings.json" = files w1 !! joinpath dest "settings.json".
Proof.
  intros Hrun.
  destruct (files w !! joinpath (joinpath src "hooks") "hooks.json") as [ht|] eqn:Hf.
  - pose proof Hrun as Hrun'. rewrite (merge_hooks_eq _ _ _ _ Hf) in Hrun.
    destruct (json_loads _) as [hd|] eqn:Hj; [|done].
    unfold mbind at 1 in Hrun; cbn [result_bind] in Hrun.
    destruct (_read_json w _) as [ex|] eqn:He; [|done].
    unfold mbind at 1 in Hrun; cbn [result_bind] in Hrun.
    destruct ex as [| | | | |e]; try done. destruct hd as [| | | | |h]; try done.
    unfold mbind in Hrun; cbn [result_bind _deep_merge] in Hrun.
    injection Hrun as <-.
    assert (Hwfh : wf_value (VDict h)) by by eapply json_loads_wf.
    assert (Hwf : wf_value (VDict (deep_merge e h))).
    { apply wf_deep_merge; [by eapply read_json_wf|done]. }
    eexists. split.
    + eapply merge_hooks_run.
      * simpl. rewrite lookup_insert_ne by (symmetry; apply hooks_path_ne_settings).
        rewrite (backup_files (echo w _)) by apply hooks_path_ne_backup. exact Hf.
      * exact Hj.
      * rewrite read_json_echo. by apply read_write_json.
    + simpl. rewrite !lookup_insert_eq.
      by rewrite (proj1 (deep_merge_absorbs (VDict h) h eq_refl Hwfh)).
  - unfold _merge_hooks in Hrun. rewrite Hf in Hrun. injection Hrun as <-.
    eexists. split; [unfold _merge_hooks; simpl; by rewrite Hf|reflexivity].
Qed.

Lemma merge_hooks_twice_witness :
  exists w1 w2,
    _merge_hooks demo_hooks_store "repo" "dest" = Ok w1 /\
    _merge_hooks w1 "repo" "dest" = Ok w2 /\
    files w2 !! "dest/settings.json" = files w1 !! "dest/settings.json".
Proof.
  assert (H : exists w1, _merge_hooks demo_hooks_store "repo" "dest" = Ok w1).
  { eexists. vm_compute. reflexivity. }
  destruct H as [w1 H1].
  destruct (merge_hooks_twice demo_hooks_store w1 "repo" "dest" H1) as (w2 & H2 & H3).
  exists w1, w2. auto.
Defined.

(** ** What the reconciliation step writes and prints *)

Lemma set_filesystem_path_files w claude_json_path path_value w' :
  _set_filesystem_path w claude_json_path path_value = Ok w' ->
  out w' = out w /\
  exists t, files w' = <[claude_json_path := t]> (files w).
Proof.
  unfold _set_filesystem_path. intros H.
  destruct (_read_json w claude_json_path) as [data|]; [|done].
  unfold mbind at 1 in H; cbn [result_bind] in H.
  destruct (with_fs_path data path_value) as [data'|]; [|done].
  unfold mbind in H; cbn [result_bind] in H. injection H as <-.
  split; [done|]. by eexists.
Qed.

Lemma set_filesystem_path_same w1 w2 claude_json_path path_value :
  files w1 = files w2 ->
  same_files (_set_filesystem_path w1 claude_json_path path_value)
             (_set_filesystem_path w2 claude_json_path path_value).
Proof.
  intros Hf. unfold _set_filesystem_path.
  rewrite (read_json_agree w2 w1 claude_json_path) by by rewrite Hf.
  destruct (_read_json w2 claude_json_path) as [data|]; [|done].
  unfold mbind at 1 3; cbn [result_bind].
  destruct (with_fs_path data path_value) as [data'|]; [|done].
  unfold mbind; cbn [result_bind]. simpl. by rewrite Hf.
Qed.

Lemma use_given_path_files E w claude_json_path given w' :
  use_given_path E w claude_json_path given = Ok w' ->
  (forall q, q <> claude_json_path -> files w' !! q = files w !! q) /\
  (forall m, Prompt m ∈ out w' -> Prompt m ∈ out w).
Proof.
  unfold use_given_path. intros H.
  assert (Hecho : forall (o : list event) s m, Prompt m ∈ o ++ [Echo s] -> Prompt m ∈ o).
  { intros o s m [?|Hin%list_elem_of_singleton]%elem_of_app; done. }
  destruct (resolve E given) as [resolved|]; [|done].
  unfold mbind at 1 in H; cbn [result_bind] in H.
  destruct (is_dir E resolved).
  - destruct (_set_filesystem_path _ _ _) as [w1|] eqn:Hs; [|done].
    unfold mbind in H; cbn [result_bind] in H. injection H as <-.
    apply set_filesystem_path_files in Hs as [Ho [t Ht]]. simpl. split.
    + intros q Hq. rewrite Ht. by apply lookup_insert_ne.
    + intros m Hm%Hecho. by rewrite <- Ho.
  - injection H as <-. simpl. split; [done|]. intros m Hm. by eapply Hecho.
Qed.

Lemma use_given_path_same E w1 w2 claude_json_path given :
  files w1 = files w2 ->
  same_files (use_given_path E w1 claude_json_path given)
             (use_given_path E w2 claude_json_path given).
Proof.
  intros Hf. unfold use_given_path.
  destruct (resolve E given) as [resolved|]; [|done].
  unfold mbind at 1 3; cbn [result_bind].
  destruct (is_dir E resolved); [|done].
  pose proof (set_filesystem_path_same w1 w2 claude_json_path resolved Hf) as H.
  destruct (_set_filesystem_path w1 _ _), (_set_filesystem_path w2 _ _); done.
Qed.

Lemma handle_files E w claude_json_path bak_path fs_path no_prompt w' :
  _handle_filesystem_path E w claude_json_path bak_path fs_path no_prompt = Ok w' ->
  (forall q, q <> claude_json_path -> files w' !! q = files w !! q) /\
  (no_prompt = true \/ opt_truthy fs_path = true ->
   forall m, Prompt m ∈ out w' -> Prompt m ∈ out w).
Proof.
  unfold _handle_filesystem_path. intros H.
  assert (Hecho : forall (o : list event) s m, Prompt m ∈ o ++ [Echo s] -> Prompt m ∈ o).
  { intros o s m [?|Hin%list_elem_of_singleton]%elem_of_app; done. }
  destruct (existing_fs_path w bak_path) as [existing|]; [|done].
  unfold mbind at 1 in H; cbn [result_bind] in H.
  destruct (opt_truthy fs_path).
  { apply use_given_path_files in H as [H1 H2]. auto. }
  destruct (if truthy existing && negb (is_placeholder existing)
            then path_is_dir E existing else Ok false) as [restore|]; [|done].
  unfold mbind at 1 in H; cbn [result_bind] in H.
  destruct restore.
  { destruct (_set_filesystem_path _ _ _) as [w1|] eqn:Hs; [|done].
    unfold mbind in H; cbn [result_bind] in H. injection H as <-.
    apply set_filesystem_path_files in Hs as [Ho [t Ht]]. simpl. split.
    - intros q Hq. rewrite Ht. by apply lookup_insert_ne.
    - intros _ m Hm%Hecho. by rewrite <- Ho. }
  set (st := (if truthy existing && negb (is_placeholder existing)
              then b ← path_is_dir E existing; Ok (negb b) else Ok false)) in H.
  destruct st as [stale|]; [|done].
  unfold mbind at 1 in H; cbn [result_bind] in H. cbn zeta in H.
  assert (Hw1 : forall w1, w1 = (if stale
            then echo w ("  Warning: Previously configured path no longer exists: "
                         +:+ show existing) else w) ->
          files w1 = files w /\ forall m, Prompt m ∈ out w1 -> Prompt m ∈ out w).
  { intros w1 ->. destruct stale; simpl; [|done]. split; [done|].
    intros m Hm. by eapply Hecho. }
  destruct (Hw1 _ eq_refl) as [Hf Ho].
  destruct no_prompt.
  { injection H as <-. simpl. split; [by rewrite Hf|].
    intros _ m Hm%Hecho. by apply Ho. }
  split; [|intros [?|?]; done].
  destruct (negb (String.eqb (prompt_answer E) EmptyString)).
  - apply use_given_path_files in H as [H1 _].
    intros q Hq. rewrite H1 by done. simpl. by rewrite Hf.
  - injection H as <-. simpl. by rewrite Hf.
Qed.

(** X7.  The reconciliation step writes no file but the client-config
    document, and with [--no-prompt] or with a flag value it never asks
    the operator. *)
Theorem handle_filesystem_path_frame (E : env) (w : store)
    (claude_json_path : string) (bak_path fs_path : option string)
    (no_prompt : bool) (w' : store) :
  _handle_filesystem_path E w claude_json_path bak_path fs_path no_prompt = Ok w' ->
  (forall q, q <> claude_json_path -> files w' !! q = files w !! q) /\
  (no_prompt = true \/ opt_truthy fs_path = true ->
   forall m, Prompt m ∈ out w' -> Prompt m ∈ out w).
Proof. apply handle_files. Qed.


Lemma handle_filesystem_path_frame_witness :
  exists w',
    _handle_filesystem_path demo_env
      (demo_store (demo_configured "YOUR_FILESYSTEM_PATH_HERE"))
      "claude.json" None (Some "/work/code") false = Ok w' /\
    files w' !! "repo/mcp-configs/mcp-servers.json"
    = files (demo_store (demo_configured "YOUR_FILESYSTEM_PATH_HERE"))
        !! "repo/mcp-configs/mcp-servers.json" /\
    forall m, Prompt m ∉ out w'.
Proof.
  assert (H : exists w',
    _handle_filesystem_path demo_env
      (demo_store (demo_configured "YOUR_FILESYSTEM_PATH_HERE"))
      "claude.json" None (Some "/work/code") false = Ok w').
  { eexists. vm_compute. reflexivity. }
  destruct H as [w' H]. exists w'. split; [exact H|].
  destruct (handle_filesystem_path_frame _ _ _ _ _ _ _ H) as [H1 H2].
  split; [by apply H1|].
  intros m Hm. apply H2 in Hm; [|by right]. simpl in Hm. by apply elem_of_nil in Hm.
Defined.

Lemma handle_unusable E w claude_json_path bak_path fs_path no_prompt existing :
  opt_truthy fs_path = false ->
  existing_fs_path w bak_path = Ok existing ->
  unusable E existing ->
  exists w1,
    files w1 = files w /\
    out w1 = out w ++
      match existing with
      | VStr p =>
          if negb (String.eqb p EmptyString) && negb (String.eqb p FS_PATH_PLACEHOLDER)
          then [Echo ("  Warning: Previously configured path no longer exists: " +:+ p)]
          else []
      | _ => []
      end /\
    _handle_filesystem_path E w claude_json_path bak_path fs_path no_prompt
    = if no_prompt then
        Ok (echo w1 "  Skipped filesystem path prompt (--no-prompt)")
      else
        let w3 := {| files := files w1;
                     out := out w1 ++
                       [Echo (nl +:+ "=== Filesystem MCP Setup ===");
                        Prompt "Enter the directory path for filesystem MCP (or press Enter to skip)"] |} in
        if negb (String.eqb (prompt_answer E) EmptyString) then
          use_given_path E w3 claude_json_path (prompt_answer E)
        else
          Ok (echo w3 "  Skipped — you can manually set it later in ~/.claude.json").
Proof.
  intros Hfs Hex Hun. unfold _handle_filesystem_path. rewrite Hex, Hfs.
  unfold mbind at 1; cbn [result_bind].
  destruct existing as [| | |p| |]; try done.
  - simpl. exists w. rewrite app_nil_r. split_and!; try done.
    unfold mbind; cbn [result_bind]. destruct no_prompt; [done|].
    simpl. by rewrite <- !app_assoc.
  - simpl. unfold is_placeholder.
    destruct (String.eqb_spec p EmptyString) as [->|Hne]; simpl.
    { exists w. rewrite app_nil_r. split_and!; try done.
      unfold mbind; cbn [result_bind]. destruct no_prompt; [done|].
      simpl. by rewrite <- !app_assoc. }
    destruct (String.eqb_spec p FS_PATH_PLACEHOLDER) as [->|Hnp]; simpl.
    { exists w. rewrite app_nil_r. split_and!; try done.
      unfold mbind; cbn [result_bind]. destruct no_prompt; [done|].
      simpl. by rewrite <- !app_assoc. }
    destruct Hun as [?|[?|Hd]]; try done. rewrite Hd.
    unfold mbind; cbn [result_bind]. simpl.
    eexists (echo w _). split_and!; [done|done|].
    destruct no_prompt; [done|]. simpl. by rewrite <- !app_assoc.
Qed.

(** X8.  In a non-interactive run with no flag value and no prior path that
    can be restored (none, the empty one, the placeholder, or one that
    names no directory), the reconciliation step changes no file; it
    reports a prior path that names no directory any more and then that
    the prompt was skipped. *)
Theorem no_prompt_leaves_files (E : env) (w : store) (claude_json_path : string)
    (bak_path fs_path : option string) (existing : value) :
  opt_truthy fs_path = false ->
  existing_fs_path w bak_path = Ok existing ->
  unusable E existing ->
  exists w',
    _handle_filesystem_path E w claude_json_path bak_path fs_path true = Ok w' /\
    files w' = files w /\
    out w' = out w ++
      match existing with
      | VStr p =>
          if negb (String.eqb p EmptyString) && negb (String.eqb p FS_PATH_PLACEHOLDER)
          then [Echo ("  Warning: Previously configured path no longer exists: " +:+ p)]
          else []
      | _ => []
      end ++ [Echo "  Skipped filesystem path prompt (--no-prompt)"].
Proof.
  intros Hfs Hex Hun.
  destruct (handle_unusable E w claude_json_path bak_path fs_path true existing
              Hfs Hex Hun) as (w1 & Hf & Ho & Hrun).
  eexists. split; [exact Hrun|]. simpl. split; [done|].
  by rewrite Ho, <- app_assoc.
Qed.

Lemma no_prompt_leaves_files_witness :
  exists w',
    _handle_filesystem_path demo_env
      (_write_json (demo_store (demo_configured "YOUR_FILESYSTEM_PATH_HERE"))
         "claude.json.bak" (VDict (demo_configured "/gone/code")))
      "claude.json" (Some "claude.json.bak") None true = Ok w' /\
    files w'
    = files (_write_json (demo_store (demo_configured "YOUR_FILESYSTEM_PATH_HERE"))
               "claude.json.bak" (VDict (demo_configured "/gone/code"))) /\
    out w'
    = [Echo "  Warning: Previously configured path no longer exists: /gone/code";
       Echo "  Skipped filesystem path prompt (--no-prompt)"].
Proof.
  destruct (no_prompt_leaves_files demo_env
    (_write_json (demo_store (demo_configured "YOUR_FILESYSTEM_PATH_HERE"))
       "claude.json.bak" (VDict (demo_configured "/gone/code")))
    "claude.json" (Some "claude.json.bak") None (VStr "/gone/code"))
    as (w' & H1 & H2 & H3).
  - reflexivity.
  - vm_compute. reflexivity.
  - right. right. reflexivity.
  - exists w'. split; [exact H1|]. split; [exact H2|]. exact H3.
Defined.

(** X9.  In an interactive run with no flag value and no prior path that
    can be restored, an empty answer at the prompt changes no file, and any
    other answer leaves the files as the same value given by the flag
    would. *)
Theorem prompt_answer_as_flag (E : env) (w : store) (claude_json_path : string)
    (bak_path fs_path : option string) (existing : value) (no_prompt' : bool) :
  opt_truthy fs_path = false ->
  existing_fs_path w bak_path = Ok existing ->
  unusable E existing ->
  (prompt_answer E = EmptyString ->
   exists w',
     _handle_filesystem_path E w claude_json_path bak_path fs_path false = Ok w' /\
     files w' = files w /\
     last (out w')
     = Some (Echo "  Skipped — you can manually set it later in ~/.claude.json")) /\
  (prompt_answer E <> EmptyString ->
   same_files
     (_handle_filesystem_path E w claude_json_path bak_path fs_path false)
     (_handle_filesystem_path E w claude_json_path bak_path
        (Some (prompt_answer E)) no_prompt')).
Proof.
  intros Hfs Hex Hun.
  destruct (handle_unusable E w claude_json_path bak_path fs_path false existing
              Hfs Hex Hun) as (w1 & Hf & Ho & Hrun).
  cbn zeta in Hrun. split.
  - intros Ha. rewrite Ha in Hrun. simpl in Hrun.
    eexists. split; [exact Hrun|]. simpl. split; [done|]. by rewrite last_snoc.
  - intros Ha. rewrite Hrun.
    rewrite (handle_with_flag E w claude_json_path bak_path (prompt_answer E)
               no_prompt' existing Ha Hex).
    destruct (String.eqb_spec (prompt_answer E) EmptyString) as [?|_]; [done|].
    simpl. by apply use_given_path_same.
Qed.

Lemma prompt_answer_as_flag_witness :
  same_files
    (_handle_filesystem_path
       {| is_dir := is_dir demo_env; resolve := resolve demo_env;
          gh_stdout := None; prompt_answer := "/work/code" |}
       (demo_store (demo_configured "YOUR_FILESYSTEM_PATH_HERE"))
       "claude.json" None None false)
    (_handle_filesystem_path
       {| is_dir := is_dir demo_env; resolve := resolve demo_env;
          gh_stdout := None; prompt_answer := "/work/code" |}
       (demo_store (demo_configured "YOUR_FILESYSTEM_PATH_HERE"))
       "claude.json" None (Some "/work/code") true).
Proof.
  apply (proj2 (prompt_answer_as_flag
    {| is_dir := is_dir demo_env; resolve := resolve demo_env;
       gh_stdout := None; prompt_answer := "/work/code" |}
    (demo_store (demo_configured "YOUR_FILESYSTEM_PATH_HERE"))
    "claude.json" None None VNull true eq_refl eq_refl I)).
  done.
Defined.

(** ** What a run of the MCP merge writes *)

Lemma merge_and_write_files w mcp_src claude_json_path w1 bak_path :
  merge_and_write w mcp_src claude_json_path = Ok (w1, bak_path) ->
  (forall q, q <> claude_json_path -> q <> claude_json_path +:+ ".bak" ->
     files w1 !! q = files w !! q) /\
  files w1 !! (claude_json_path +:+ ".bak")
  = match files w !! claude_json_path with
    | Some t => Some t
    | None => files w !! (claude_json_path +:+ ".bak")
    end.
Proof.
  unfold merge_and_write. cbn zeta. intros H.
  destruct (_read_json _ mcp_src) as [mcp_data|]; [|done].
  unfold mbind at 1 in H; cbn [result_bind] in H.
  destruct (_backup _ _) as [w0 b] eqn:Hb.
  assert (Hw0 : w0 = (_backup (echo w (nl +:+ "=== Merging MCP servers into ~/.claude.json ==="))
                        claude_json_path).1) by by rewrite Hb.
  destruct (_read_json w0 claude_json_path) as [existing|]; [|done].
  unfold mbind at 1 in H; cbn [result_bind] in H.
  destruct (merged_document existing mcp_data) as [merged|]; [|done].
  unfold mbind in H; cbn [result_bind] in H. injection H as <- <-. simpl. split.
  - intros q Hq1 Hq2. rewrite lookup_insert_ne by done.
    rewrite Hw0. by rewrite backup_files.
  - rewrite lookup_insert_ne by (intros H; symmetry in H; by apply bak_ne in H).
    rewrite Hw0. apply (backup_lookup (echo w _)).
Qed.

(** X10.  A run of the MCP merge that returns changes no file but the
    client-config document and its backup; when the source MCP document is
    there the backup holds the text the client-config document had before
    the run (no backup is made when there was none), and when it is not
    there no file is changed at all. *)
Theorem mcp_merge_files (E : env) (w : store) (src claude_json_path : string)
    (fs_path : option string) (no_prompt : bool) (w' : store) :
  _merge_mcp_servers E w src claude_json_path fs_path no_prompt = Ok w' ->
  (forall q, q <> claude_json_path -> q <> claude_json_path +:+ ".bak" ->
     files w' !! q = files w !! q) /\
  (is_file w (joinpath (joinpath src "mcp-configs") "mcp-servers.json") = true ->
   files w' !! (claude_json_path +:+ ".bak")
   = match files w !! claude_json_path with
     | Some t => Some t
     | None => files w !! (claude_json_path +:+ ".bak")
     end) /\
  (is_file w (joinpath (joinpath src "mcp-configs") "mcp-servers.json") = false ->
   files w' = files w).
Proof.
  unfold _merge_mcp_servers. cbn zeta. intros H.
  destruct (is_file w _) eqn:Hsrc; simpl in H.
  2:{ injection H as <-. split_and!; done. }
  destruct (merge_and_write _ _ _) as [[w1 bak_path]|] eqn:Hm; [|done].
  unfold mbind at 1 in H; cbn [result_bind] in H.
  destruct (_auto_fill_gh_token E w1 claude_json_path) as [w2|] eqn:Ha; [|done].
  unfold mbind at 1 in H; cbn [result_bind] in H.
  apply merge_and_write_files in Hm as [Hm1 Hm2].
  pose proof (auto_fill_files _ _ _ _ Ha) as Ha'.
  apply handle_files in H as [Hh _].
  assert (Hne : claude_json_path +:+ ".bak" <> claude_json_path) by apply bak_ne.
  split_and!; [|intros _|done].
  - intros q Hq1 Hq2. by rewrite Hh, Ha', Hm1.
  - by rewrite Hh, Ha', Hm2.
Qed.

Lemma mcp_merge_files_witness :
  exists w',
    _merge_mcp_servers demo_env (demo_store (demo_configured "/old/code"))
      "repo" "claude.json" None true = Ok w' /\
    files w' !! "claude.json.bak"
    = files (demo_store (demo_configured "/old/code")) !! "claude.json" /\
    files w' !! "repo/mcp-configs/mcp-servers.json"
    = files (demo_store (demo_configured "/old/code"))
        !! "repo/mcp-configs/mcp-servers.json".
Proof.
  assert (H : exists w',
    _merge_mcp_servers demo_env (demo_store (demo_configured "/old/code"))
      "repo" "claude.json" None true = Ok w').
  { eexists. vm_compute. reflexivity. }
  destruct H as [w' H]. exists w'. split; [exact H|].
  destruct (mcp_merge_files _ _ _ _ _ _ _ H) as (H1 & H2 & _).
  split.
  - etransitivity; [apply H2; reflexivity|]. reflexivity.
  - by apply H1.
Defined.

(** ** [_set_filesystem_path] touches [args] alone, and the last call counts *)

Lemma dict_set_set key v1 v2 : forall d,
  dict_set key v2 (dict_set key v1 d) = dict_set key v2 d.
Proof.
  induction d as [|[k x] d IH]; simpl.
  - by rewrite String.eqb_refl.
  - destruct (String.eqb_spec key k) as [->|Hne]; simpl.
    + by rewrite String.eqb_refl.
    + destruct (String.eqb_spec key k); [done|]. by rewrite IH.
Qed.

Lemma new_args_new_args l p q : new_args (new_args l p) q = new_args l q.
Proof.
  destruct l as [|x l]; [done|].
  unfold new_args at 2. unfold new_args.
  destruct (removelast (x :: l) ++ [VStr p]) as [|y r] eqn:Heq.
  - by destruct (removelast (x :: l)).
  - rewrite <- Heq. by rewrite removelast_last.
Qed.

Lemma with_fs_path_eq doc l path_value :
  fs_args doc = Ok (VList l) ->
  exists d,
    doc = VDict d /\
    default (VDict []) (dict_get "mcpServers" d) = VDict (servers_of doc) /\
    default (VDict []) (dict_get "filesystem" (servers_of doc))
      = VDict (fs_config_of doc) /\
    default (VList []) (dict_get "args" (fs_config_of doc)) = VList l /\
    with_fs_path doc path_value
    = Ok (VDict
            (dict_set "mcpServers"
               (VDict
                  (dict_set "filesystem"
                     (VDict (dict_set "args" (VList (new_args l path_value))
                               (fs_config_of doc)))
                     (servers_of doc)))
               d)).
Proof.
  intros Ha.
  destruct (fs_args_inv doc l Ha) as (d & servers & fs_config & -> & Hs & Hf & Hl).
  exists d. unfold fs_config_of, servers_of. rewrite Hs, Hf.
  split_and!; try done.
  unfold with_fs_path. rewrite Ha. unfold mbind at 1; cbn [result_bind].
  unfold set_fs_args.
  destruct l as [|x l]; simpl; unfold mbind; cbn [result_bind]; by rewrite Hs, Hf.
Qed.

Lemma fs_parts_after d servers fs_config args :
  servers_of (VDict (dict_set "mcpServers"
                (VDict (dict_set "filesystem"
                          (VDict (dict_set "args" args fs_config)) servers)) d))
  = dict_set "filesystem" (VDict (dict_set "args" args fs_config)) servers /\
  fs_config_of (VDict (dict_set "mcpServers"
                (VDict (dict_set "filesystem"
                          (VDict (dict_set "args" args fs_config)) servers)) d))
  = dict_set "args" args fs_config.
Proof.
  unfold fs_config_of, servers_of. rewrite dict_get_set_eq. simpl.
  by rewrite dict_get_set_eq.
Qed.

(** X11.  On a client-config document in the expected format the step
    returns and changes [args] of the filesystem server alone: every other
    top-level key, every other server and every other field of the
    filesystem server keeps its value, the top-level keys keep their order
    ([mcpServers] goes last when it was missing), no other file is changed
    and nothing is printed. *)
Theorem set_filesystem_path_frame (w : store) (claude_json_path path_value : string)
    (doc : value) (l : list value) :
  _read_json w claude_json_path = Ok doc ->
  fs_args doc = Ok (VList l) ->
  exists w' d d',
    doc = VDict d /\
    _set_filesystem_path w claude_json_path path_value = Ok w' /\
    _read_json w' claude_json_path = Ok (VDict d') /\
    (forall key, key <> "mcpServers" -> dict_get key d' = dict_get key d) /\
    (forall name, name <> "filesystem" ->
       dict_get name (servers_of (VDict d')) = dict_get name (servers_of doc)) /\
    (forall field, field <> "args" ->
       dict_get field (fs_config_of (VDict d')) = dict_get field (fs_config_of doc)) /\
    keys d' = (if decide ("mcpServers" ∈ keys d) then keys d
               else keys d ++ ["mcpServers"]) /\
    (forall q, q <> claude_json_path -> files w' !! q = files w !! q) /\
    out w' = out w.
Proof.
  intros Hr Ha.
  destruct (with_fs_path_eq doc l path_value Ha) as (d & -> & Hs & Hf & Hl & Hw).
  assert (Hwf : exists doc', with_fs_path (VDict d) path_value = Ok doc' /\ wf_value doc').
  { destruct (with_fs_path_doc (VDict d) l path_value) as (doc' & H1 & H2 & _);
      [by eapply read_json_wf|done|]. eauto. }
  destruct Hwf as (doc' & Hw' & Hwf). rewrite Hw in Hw'. injection Hw' as <-.
  eexists _, d, _. split; [done|]. split.
  { unfold _set_filesystem_path. rewrite Hr. unfold mbind at 1; cbn [result_bind].
    rewrite Hw. unfold mbind; cbn [result_bind]. reflexivity. }
  destruct (fs_parts_after d (servers_of (VDict d)) (fs_config_of (VDict d))
              (VList (new_args l path_value))) as [Hsv Hfc].
  split_and!.
  - by apply read_write_json.
  - intros key Hk. by apply dict_get_set_ne.
  - intros name Hn. rewrite Hsv. by apply dict_get_set_ne.
  - intros field Hn. rewrite Hfc. by apply dict_get_set_ne.
  - rewrite keys_dict_set. destruct (decide _) as [Hin|Hnin].
    + by apply dict_get_is_Some in Hin as [? ->].
    + by rewrite dict_get_None.
  - intros q Hq. simpl. by apply lookup_insert_ne.
  - done.
Qed.

Lemma set_filesystem_path_frame_witness :
  exists w' d',
    _set_filesystem_path
      (demo_store [("topLevel", VStr "kept");
         ("mcpServers",
          VDict [("custom", VDict [("command", VStr "my-server")]);
                 ("filesystem",
                  VDict [("command", VStr "npx");
                         ("args", VList [VStr "-y"; VStr "/old/code"])])])])
      "claude.json" "/work/code" = Ok w' /\
    _read_json w' "claude.json" = Ok (VDict d') /\
    dict_get "topLevel" d' = Some (VStr "kept") /\
    dict_get "custom" (servers_of (VDict d'))
    = Some (VDict [("command", VStr "my-server")]) /\
    dict_get "command" (fs_config_of (VDict d')) = Some (VStr "npx").
Proof.
  destruct (set_filesystem_path_frame
              (demo_store [("topLevel", VStr "kept");
                 ("mcpServers",
                  VDict [("custom", VDict [("command", VStr "my-server")]);
                         ("filesystem",
                          VDict [("command", VStr "npx");
                                 ("args", VList [VStr "-y"; VStr "/old/code"])])])])
              "claude.json" "/work/code"
              (VDict [("topLevel", VStr "kept");
                 ("mcpServers",
                  VDict [("custom", VDict [("command", VStr "my-server")]);
                         ("filesystem",
                          VDict [("command", VStr "npx");
                                 ("args", VList [VStr "-y"; VStr "/old/code"])])])])
              [VStr "-y"; VStr "/old/code"])
    as (w' & d & d' & Hd & H1 & H2 & H3 & H4 & H5 & _).
  - vm_compute. reflexivity.
  - reflexivity.
  - injection Hd as <-. exists w', d'. split; [exact H1|]. split; [exact H2|].
    split; [by rewrite H3|]. split; [by rewrite H4|by rewrite H5].
Defined.

(** X12.  On a client-config document in the expected format ([args] a
    list where present), of two calls in a row the later one counts:
    setting [p] and then [q] leaves the store as setting [q] alone does. *)
Theorem set_filesystem_path_twice (w : store) (claude_json_path p q : string)
    (doc : value) (l : list value) :
  _read_json w claude_json_path = Ok doc ->
  fs_args doc = Ok (VList l) ->
  exists w',
    _set_filesystem_path w claude_json_path q = Ok w' /\
    (w1 ← _set_filesystem_path w claude_json_path p;
     _set_filesystem_path w1 claude_json_path q) = Ok w'.
Proof.
  intros Hr Ha.
  destruct (with_fs_path_doc doc l p (read_json_wf _ _ _ Hr) Ha)
    as (doc1 & Hw1' & Hwf1 & _ & Ha1 & _).
  destruct (with_fs_path_eq doc l p Ha) as (d & -> & _ & _ & _ & Hw1).
  destruct (with_fs_path_eq (VDict d) l q Ha) as (d0 & Hd0 & _ & _ & _ & Hw2).
  assert (d0 = d) as -> by congruence. clear Hd0.
  rewrite Hw1 in Hw1'.
  assert (Hdoc1 : forall a b : value, Ok a = Ok b -> a = b) by (by intros a b [= ->]).
  apply Hdoc1 in Hw1'. clear Hdoc1. rename Hw1' into Hdoc1.
  destruct (with_fs_path_eq doc1 _ q Ha1) as (d1 & Hd1 & _ & _ & _ & Hw3).
  rewrite <- Hdoc1 in Hw3.
  destruct (fs_parts_after d (servers_of (VDict d)) (fs_config_of (VDict d))
              (VList (new_args l p))) as [Hsv Hfc].
  rewrite Hsv, Hfc in Hw3. rewrite <- Hdoc1 in Hd1. injection Hd1 as <-.
  rewrite !dict_set_set, new_args_new_args in Hw3.
  eexists. split.
  - unfold _set_filesystem_path. rewrite Hr. unfold mbind at 1; cbn [result_bind].
    rewrite Hw2. unfold mbind; cbn [result_bind]. reflexivity.
  - assert (H1 : _set_filesystem_path w claude_json_path p
                 = Ok (_write_json w claude_json_path doc1)).
    { unfold _set_filesystem_path. rewrite Hr. unfold mbind at 1; cbn [result_bind].
      rewrite Hw1. unfold mbind; cbn [result_bind]. by rewrite Hdoc1. }
    rewrite H1. unfold mbind at 1; cbn [result_bind].
    unfold _set_filesystem_path. rewrite read_write_json by done.
    unfold mbind at 1; cbn [result_bind]. rewrite <- Hdoc1, Hw3.
    unfold mbind; cbn [result_bind]. f_equal.
    unfold _write_json, write_text. simpl. f_equal. apply insert_insert_eq.
Qed.

Lemma set_filesystem_path_twice_witness :
  exists w',
    _set_filesystem_path (demo_store (demo_configured "YOUR_FILESYSTEM_PATH_HERE"))
      "claude.json" "/work/code" = Ok w' /\
    (w1 ← _set_filesystem_path (demo_store (demo_configured "YOUR_FILESYSTEM_PATH_HERE"))
            "claude.json" "/old/code";
     _set_filesystem_path w1 "claude.json" "/work/code") = Ok w'.
Proof.
  apply (set_filesystem_path_twice
           (demo_store (demo_configured "YOUR_FILESYSTEM_PATH_HERE"))
           "claude.json" "/old/code" "/work/code"
           (VDict (demo_configured "YOUR_FILESYSTEM_PATH_HERE"))
           [VStr "-y"; VStr "@mcp/server-filesystem"; VStr "YOUR_FILESYSTEM_PATH_HERE"]).
  - vm_compute. reflexivity.
  - reflexivity.
Defined.

(** X13.  On a document that is no mapping the step raises AttributeError.
    When [args] is neither a list nor a mapping it raises and writes
    nothing: TypeError for a non-empty string, a non-zero number or [true],
    AttributeError for [null], [false], zero or the empty string. *)
Theorem set_filesystem_path_bad_args (w : store) (claude_json_path path_value : string)
    (doc args : value) :
  _read_json w claude_json_path = Ok doc ->
  (is_mapping doc = false ->
   _set_filesystem_path w claude_json_path path_value = Raise AttributeError) /\
  (fs_args doc = Ok args -> is_scalar args = true ->
   _set_filesystem_path w claude_json_path path_value
   = Raise (if truthy args then TypeError else AttributeError)).
Proof.
  intros Hr. unfold _set_filesystem_path. rewrite Hr.
  unfold mbind at 1 3; cbn [result_bind]. split.
  - intros Hd. by destruct doc.
  - intros Ha Hs. unfold with_fs_path. rewrite Ha.
    unfold mbind at 2; cbn [result_bind].
    destruct args as [| b | n | s | |]; try done; simpl.
    + by destruct b.
    + by destruct (n =? 0).
    + by destruct (String.eqb s EmptyString).
Qed.

Lemma set_filesystem_path_bad_args_witness :
  _set_filesystem_path
    (_write_json {| files := ∅; out := [] |} "claude.json"
       (VDict [("mcpServers",
                VDict [("filesystem", VDict [("args", VStr "/some/dir")])])]))
    "claude.json" "/work/code" = Raise TypeError /\
  _set_filesystem_path
    (_write_json {| files := ∅; out := [] |} "claude.json"
       (VDict [("mcpServers", VDict [("filesystem", VDict [("args", VNull)])])]))
    "claude.json" "/work/code" = Raise AttributeError.
Proof.
  split.
  - destruct (set_filesystem_path_bad_args
                (_write_json {| files := ∅; out := [] |} "claude.json"
                   (VDict [("mcpServers",
                      VDict [("filesystem", VDict [("args", VStr "/some/dir")])])]))
                "claude.json" "/work/code"
                (VDict [("mcpServers",
                   VDict [("filesystem", VDict [("args", VStr "/some/dir")])])])
                (VStr "/some/dir")) as [_ H].
    + vm_compute. reflexivity.
    + exact (H eq_refl eq_refl).
  - destruct (set_filesystem_path_bad_args
                (_write_json {| files := ∅; out := [] |} "claude.json"
                   (VDict [("mcpServers", VDict [("filesystem", VDict [("args", VNull)])])]))
                "claude.json" "/work/code"
                (VDict [("mcpServers", VDict [("filesystem", VDict [("args", VNull)])])])
                VNull) as [_ H].
    + vm_compute. reflexivity.
    + exact (H eq_refl eq_refl).
Defined.

(** ** The linker: what stands in the way, what is left alone, a second run *)


Lemma bind_ok {A B} (m : result A) (f : A -> result B) y :
  m ≫= f = Ok y -> exists x, m = Ok x /\ f x = Ok y.
Proof. destruct m as [x|e']; intros H; [by exists x|done]. Qed.







(** X15.  A run of the linker that returns leaves every destination entry
    alone that is neither one of the six names nor the backup name of
    one. *)
Theorem link_directories_frame (E : env) (src dest : string) (w w' : dest_state)
    (k : string) :
  _link_directories E src dest w = Ok w' ->
  k ∉ LINK_DIRS ->
  (forall name, name ∈ LINK_DIRS -> k <> name +:+ ".bak") ->
  entries w' !! k = entries w !! k.
Proof.
  intros H Hk Hb. unfold _link_directories in H.
  destruct (link_all_linked _ _ _ _ _ _ apart_LINK_DIRS H) as [Hf _].
  rewrite Hf; [done|done|].
  intros (name & -> & Hin)%list_elem_of_fmap.
  apply (Hb name Hin). by apply bak_name_LINK_DIRS.
Qed.

Lemma link_directories_frame_witness :
  exists w',
    _link_directories demo_link_env "repo" "dest"
      {| entries := <["settings.json" := NFile "{}"]> (entries demo_dest);
         printed := [] |} = Ok w' /\
    entries w' !! "settings.json" = Some (NFile "{}").
Proof.
  assert (H : exists w',
    _link_directories demo_link_env "repo" "dest"
      {| entries := <["settings.json" := NFile "{}"]> (entries demo_dest);
         printed := [] |} = Ok w').
  { eexists. vm_compute. reflexivity. }
  destruct H as [w' H]. exists w'. split; [exact H|].
  rewrite (link_directories_frame _ _ _ _ _ "settings.json" H).
  - reflexivity.
  - apply (bool_decide_unpack _). vm_compute. reflexivity.
  - intros name Hin Heq. unfold LINK_DIRS in Hin.
    repeat (apply elem_of_cons in Hin as [->|Hin]; [simpl in Heq; discriminate|]).
    by apply elem_of_nil in Hin.
Defined.

Lemma link_all_again E src dest names : forall w,
  (forall name, name ∈ names -> is_dir E (joinpath src name) = true ->
     entries w !! name = Some (NLink (joinpath src name))) ->
  exists w', link_all E src dest names w = Ok w' /\ entries w' = entries w.
Proof.
  induction names as [|n rest IH]; intros w Hw; [by exists w|].
  assert (H1 : exists w1, link_one E src dest n w = Ok w1 /\ entries w1 = entries w).
  { unfold link_one. destruct (is_dir E (joinpath src n)) eqn:Hd; simpl.
    - rewrite (Hw n) by (done || left). unfold mbind; cbn [result_bind].
      unfold symlink_to. simpl. rewrite lookup_delete_eq.
      eexists. split; [done|]. simpl.
      rewrite insert_delete_eq. apply insert_id. apply Hw; [left|done].
    - by eexists. }
  destruct H1 as (w1 & H1 & He1). simpl. rewrite H1.
  unfold mbind; cbn [result_bind].
  destruct (IH w1) as (w' & H2 & He2).
  { intros name Hin Hd. rewrite He1. apply Hw; [by right|done]. }
  exists w'. split; [done|]. by rewrite He2.
Qed.

(** X16.  A second run of the linker, right after a first one that
    returned, returns too and leaves the destination entries as they
    are. *)
Theorem link_directories_twice (E : env) (src dest : string) (w w1 : dest_state) :
  _link_directories E src dest w = Ok w1 ->
  exists w2,
    _link_directories E src dest w1 = Ok w2 /\
    entries w2 = entries w1.
Proof.
  intros H. unfold _link_directories in *.
  destruct (link_all_linked _ _ _ _ _ _ apart_LINK_DIRS H) as [_ Hl].
  apply (link_all_again E src dest LINK_DIRS (say w1 _)).
  intros name Hin Hd. specialize (Hl name Hin). unfold linked in Hl.
  rewrite Hd in Hl. simpl. apply Hl.
Qed.

Lemma link_directories_twice_witness :
  exists w1 w2,
    _link_directories demo_link_env "repo" "dest" demo_dest = Ok w1 /\
    _link_directories demo_link_env "repo" "dest" w1 = Ok w2 /\
    entries w2 = entries w1.
Proof.
  assert (H : exists w1, _link_directories demo_link_env "repo" "dest" demo_dest = Ok w1).
  { eexists. vm_compute. reflexivity. }
  destruct H as [w1 H1].
  destruct (link_directories_twice _ _ _ _ _ H1) as (w2 & H2 & H3).
  exists w1, w2. auto.
Defined.

(** ** The credential helper's output *)

Lemma lstrip_head t c r : lstrip t = c :: r -> py_isspace c = false.
Proof.
  induction t as [|a t IH]; simpl; [done|].
  destruct (py_isspace a) eqn:Ha; [done|]. by intros [= <- _].
Qed.

Lemma lstrip_suffix t : exists p, t = p ++ lstrip t.
Proof.
  induction t as [|a t [p IH]]; simpl; [by exists []|].
  destruct (py_isspace a); [|by exists []].
  exists (a :: p). simpl. by rewrite <- IH.
Qed.

Lemma strip_ends t :
  (forall c r, strip t = c :: r -> py_isspace c = false) /\
  (forall r c, strip t = r ++ [c] -> py_isspace c = false).
Proof.
  unfold strip. destruct (lstrip_suffix (rev (lstrip t))) as [p Hp].
  destruct (lstrip (rev (lstrip t))) as [|x v] eqn:Hv.
  - split; [done|]. intros r c H. by destruct r.
  - pose proof (lstrip_head _ _ _ Hv) as Hx. split.
    + intros c r Hc. apply (f_equal (@rev ascii)) in Hp.
      rewrite rev_involutive, rev_app_distr, Hc in Hp. simpl in Hp.
      by apply lstrip_head in Hp.
    + intros r c Hc. simpl in Hc. apply app_inj_tail in Hc as [_ <-]. exact Hx.
Qed.

(** X17.  The credential helper gives no token exactly when [gh] is missing
    or printed nothing but whitespace.  A token it gives is what [gh]
    printed without the whitespace around it: it is not empty and neither
    starts nor ends with a whitespace character. *)
Theorem gh_auth_token_stripped (E : env) :
  (_gh_auth_token E = None <->
   match gh_stdout E with
   | None => True
   | Some o => forallb py_isspace (chars o) = true
   end) /\
  (forall token,
     _gh_auth_token E = Some token ->
     token <> EmptyString /\
     (exists o, gh_stdout E = Some o /\ chars token = strip (chars o)) /\
     (forall c r, chars token = c :: r -> py_isspace c = false) /\
     (forall r c, chars token = r ++ [c] -> py_isspace c = false)).
Proof.
  unfold _gh_auth_token. destruct (gh_stdout E) as [o|]; [|by split].
  pose proof (strip_nil_iff (chars o)) as Hnil.
  destruct (strip_ends (chars o)) as [Hh Hl].
  destruct (strip (chars o)) as [|c t] eqn:Hs.
  - split; [|done]. split; [intros _; by apply Hnil|done].
  - split.
    + split; [done|]. intros Hb. apply Hnil in Hb. done.
    + intros token Ht. assert (token = str (c :: t)) as -> by congruence.
      rewrite chars_str. split_and!; [done| |done|done].
      by exists o.
Qed.

Lemma gh_auth_token_stripped_witness :
  _gh_auth_token demo_env = Some "ghp_test123" /\
  _gh_auth_token cwd_env = None.
Proof.
  split.
  - reflexivity.
  - apply (proj1 (gh_auth_token_stripped cwd_env)). exact I.
Defined.

(** ** The text [_write_json] leaves *)

Lemma uint_chars_no_space u : Forall (fun c => py_isspace c = false) (uint_chars u).
Proof. induction u; simpl; by constructor. Qed.

Lemma int_chars_no_space n : Forall (fun c => py_isspace c = false) (int_chars n).
Proof.
  unfold int_chars. destruct (Z.to_int n); [|constructor; [done|]];
    apply uint_chars_no_space.
Qed.

Lemma Forall_last_elem {A} (P : A -> Prop) (l : list A) :
  l <> [] -> Forall P l -> exists r c, l = r ++ [c] /\ P c.
Proof.
  induction l as [|a l _] using rev_ind; [done|]. intros _ H.
  apply Forall_app in H as [_ H]. apply Forall_inv in H. by exists l, a.
Qed.

Lemma encode_last lvl v :
  exists r c, encode lvl v = r ++ [c] /\ py_isspace c = false.
Proof.
  destruct v as [|[]|n|s|[|x xs]|[|[k x] xs]].
  - exists ["n"; "u"; "l"]%char, "l"%char. split; reflexivity.
  - exists ["t"; "r"; "u"]%char, "e"%char. split; reflexivity.
  - exists ["f"; "a"; "l"; "s"]%char, "e"%char. split; reflexivity.
  - apply Forall_last_elem; [|apply int_chars_no_space].
    destruct (encode_head lvl (VInt n)) as (c0 & r0 & He & _). by rewrite He.
  - exists (dquote :: encode_chars s), dquote. split; reflexivity.
  - exists ["["]%char, "]"%char. split; reflexivity.
  - cbn [encode].
    match goal with
    | |- exists r c, ?a :: ?A ++ ?B ++ ?C ++ ?D ++ [?z] = _ /\ _ =>
        exists (a :: A ++ B ++ C ++ D), z
    end.
    split; [|reflexivity]. by rewrite <- app_comm_cons, <- !app_assoc.
  - exists ["{"]%char, "}"%char. split; reflexivity.
  - cbn [encode].
    match goal with
    | |- exists r c, ?a :: ?A ++ ?B ++ ?p :: ?q :: ?C ++ ?D ++ ?F ++ [?z] = _ /\ _ =>
        exists (a :: A ++ B ++ p :: q :: C ++ D ++ F), z
    end.
    split; [|reflexivity].
    rewrite <- app_comm_cons, <- !app_assoc. do 3 f_equal.
    by rewrite <- !app_comm_cons, <- !app_assoc.
Qed.

(** X18.  The text [_write_json] leaves under [path] is the JSON document
    followed by exactly one line break: the document does not end in
    whitespace.  No other file is changed and nothing is printed. *)
Theorem write_json_text (w : store) (path : string) (data : value) :
  exists body c,
    files (_write_json w path data) !! path = Some (str (body ++ [c; newline])) /\
    body ++ [c] = chars (json_dumps data) /\
    py_isspace c = false /\
    (forall q, q <> path -> files (_write_json w path data) !! q = files w !! q) /\
    out (_write_json w path data) = out w.
Proof.
  destruct (encode_last 0 data) as (body & c & He & Hc).
  exists body, c. unfold _write_json, write_text. simpl. split_and!.
  - rewrite lookup_insert_eq. f_equal.
    rewrite <- (str_chars (json_dumps data +:+ nl)). f_equal.
    rewrite chars_app. unfold json_dumps. rewrite chars_str, He.
    by rewrite <- app_assoc.
  - unfold json_dumps. by rewrite chars_str.
  - done.
  - intros q Hq. by apply lookup_insert_ne.
  - done.
Qed.

(** ** The MCP merge step, run again *)

Lemma merged_document_inv existing mcp_data merged :
  merged_document existing mcp_data = Ok merged ->
  exists e n es ns,
    existing = VDict e /\ mcp_data = VDict n /\
    default (VDict []) (dict_get "mcpServers" e) = VDict es /\
    default (VDict []) (dict_get "mcpServers" n) = VDict ns /\
    merged = VDict (dict_set "mcpServers" (VDict (deep_merge es ns)) e).
Proof.
  unfold merged_document. intros H.
  destruct existing as [| | | | |e]; try done.
  destruct mcp_data as [| | | | |n]; try done.
  simpl in H. unfold mbind in H; cbn [result_bind] in H.
  destruct (default (VDict []) (dict_get "mcpServers" e)) as [| | | | |es] eqn:He;
    try done.
  destruct (default (VDict []) (dict_get "mcpServers" n)) as [| | | | |ns] eqn:Hn;
    try done.
  simpl in H. injection H as <-. by exists e, n, es, ns.
Qed.

Lemma merge_and_write_eq w mcp_src claude_json_path :
  merge_and_write w mcp_src claude_json_path
  = (mcp_data ← _read_json w mcp_src;
     existing ← _read_json w claude_json_path;
     merged ← merged_document existing mcp_data;
     Ok (echo (echo (_write_json
                       (_backup (echo w (nl +:+ "=== Merging MCP servers into ~/.claude.json ==="))
                          claude_json_path).1
                       claude_json_path merged)
                  ("  Merged MCP servers into: " +:+ claude_json_path))
            (nl +:+ "  NOTE: Replace YOUR_*_HERE placeholders in "
             +:+ claude_json_path +:+ " with actual values"),
         (_backup (echo w (nl +:+ "=== Merging MCP servers into ~/.claude.json ==="))
            claude_json_path).2)).
Proof.
  unfold merge_and_write. cbn zeta. rewrite read_json_echo.
  destruct (_read_json w mcp_src) as [mcp_data|]; [|done].
  unfold mbind at 1 4; cbn [result_bind].
  destruct (_backup _ _) as [w1 b] eqn:Hb.
  assert (Hw1 : w1 = (_backup (echo w (nl +:+ "=== Merging MCP servers into ~/.claude.json ==="))
                        claude_json_path).1) by by rewrite Hb.
  assert (Hr : _read_json w1 claude_json_path = _read_json w claude_json_path).
  { apply read_json_agree. rewrite Hw1. apply (backup_keeps (echo w _)). }
  rewrite Hr. simpl. reflexivity.
Qed.

(** X19.  Merging the source MCP document into the client-config document
    once more, right after a merge that returned, returns too, writes the
    same client-config text again and makes the backup a copy of it; the
    source document is taken to be a file of its own. *)
Theorem mcp_merge_step_twice (w w1 : store) (mcp_src claude_json_path : string)
    (bak_path : option string) :
  merge_and_write w mcp_src claude_json_path = Ok (w1, bak_path) ->
  mcp_src <> claude_json_path ->
  mcp_src <> claude_json_path +:+ ".bak" ->
  exists w2,
    merge_and_write w1 mcp_src claude_json_path
      = Ok (w2, Some (claude_json_path +:+ ".bak")) /\
    files w2 !! claude_json_path = files w1 !! claude_json_path /\
    files w2 !! (claude_json_path +:+ ".bak") = files w1 !! claude_json_path.
Proof.
  intros Hrun Hne1 Hne2. rewrite merge_and_write_eq in Hrun.
  apply bind_ok in Hrun as (mcp_data & Hm & Hrun).
  apply bind_ok in Hrun as (existing & He & Hrun).
  apply bind_ok in Hrun as (merged & Hd & Hrun).
  injection Hrun as <- <-.
  destruct (merged_document_inv _ _ _ Hd) as (e & n & es & ns & -> & -> & Hes & Hns & ->).
  assert (Hwfn : wf_value (VDict ns)).
  { rewrite <- Hns. apply wf_default_dict. by eapply read_json_wf. }
  assert (Hwfe : wf_value (VDict es)).
  { rewrite <- Hes. apply wf_default_dict. by eapply read_json_wf. }
  assert (Hwf : wf_value (VDict (dict_set "mcpServers" (VDict (deep_merge es ns)) e))).
  { apply wf_dict_set; [by eapply read_json_wf|by apply wf_deep_merge]. }
  set (w0 := (_backup (echo w _) claude_json_path).1).
  set (doc := VDict (dict_set "mcpServers" (VDict (deep_merge es ns)) e)) in *.
  set (w1 := echo (echo (_write_json w0 claude_json_path doc) _) _).
  assert (Hm1 : _read_json w1 mcp_src = Ok (VDict n)).
  { rewrite <- Hm. apply read_json_agree. unfold w1, w0. simpl.
    rewrite lookup_insert_ne by done. by rewrite (backup_files (echo w _)). }
  assert (Hr1 : _read_json w1 claude_json_path = Ok doc).
  { unfold w1. rewrite !read_json_echo. by apply read_write_json. }
  assert (Hd1 : merged_document doc (VDict n) = Ok doc).
  { unfold doc. erewrite merged_document_mappings; [|by rewrite dict_get_set_eq|exact Hns].
    rewrite (proj1 (deep_merge_absorbs (VDict ns) ns eq_refl Hwfn)).
    by rewrite dict_set_set. }
  assert (Hf1 : files w1 !! claude_json_path = Some (json_dumps doc +:+ nl)).
  { unfold w1. simpl. apply lookup_insert_eq. }
  assert (Hb2 : forall m, (_backup (echo w1 m) claude_json_path).2
                          = Some (claude_json_path +:+ ".bak")).
  { intros m. unfold _backup. change (files (echo w1 m)) with (files w1).
    by rewrite Hf1. }
  rewrite merge_and_write_eq, Hm1. unfold mbind at 1; cbn [result_bind].
  rewrite Hr1. unfold mbind at 1; cbn [result_bind].
  rewrite Hd1. unfold mbind; cbn [result_bind]. rewrite Hb2.
  eexists. split; [reflexivity|]. split.
  - cbn [files echo _write_json write_text]. rewrite lookup_insert_eq. by rewrite Hf1.
  - cbn [files echo _write_json write_text].
    rewrite lookup_insert_ne by (intros H; symmetry in H; by apply bak_ne in H).
    rewrite (backup_lookup (echo w1 _)).
    change (files (echo w1 _)) with (files w1). by rewrite Hf1.
Qed.

Lemma mcp_merge_step_twice_witness :
  exists w1 w2 bak_path,
    merge_and_write (demo_store demo_existing)
      "repo/mcp-configs/mcp-servers.json" "claude.json" = Ok (w1, bak_path) /\
    merge_and_write w1 "repo/mcp-configs/mcp-servers.json" "claude.json"
      = Ok (w2, Some "claude.json.bak") /\
    files w2 !! "claude.json" = files w1 !! "claude.json".
Proof.
  assert (H : exists w1 bak_path,
    merge_and_write (demo_store demo_existing)
      "repo/mcp-configs/mcp-servers.json" "claude.json" = Ok (w1, bak_path)).
  { eexists _, _. vm_compute. reflexivity. }
  destruct H as (w1 & bak_path & H1).
  destruct (mcp_merge_step_twice _ _ _ _ _ H1) as (w2 & H2 & H3 & _);
    [discriminate|discriminate|].
  exists w1, w2, bak_path. auto.
Defined.
